(** * blammo: a shallow embedding of the log-event lifecycle

    The development follows [blammo.go] (the newer variant, with
    [writeCallStack]) function by function; the older variant's
    [writeCaller] lives in [Module Old].  Go values are modelled as
    follows.

    - [[]byte] and [string] are [list byte]; only the contents of a slice
      are modelled, not its capacity ([append] never fails and its result
      has the same contents whether or not it reallocates).
    - [int] is [Z]; lengths and offsets are far below [2^63] for any buffer
      that fits in memory, so no wrap-around is written for them.
    - a run-time panic is the [Panic] result.
    - [*Event] is [option Event], [nil] being [None]; the methods mutate the
      receiver in place, which is state passing here.
    - an [io.Writer] is identified by a number; the bytes handed to
      [Write] are recorded, in order, in the [World]. *)

From Stdlib Require Import ZArith List Lia Bool Ascii String.
From Stdlib Require Import Strings.Byte.
From Stdlib Require Import DecimalString DecimalPos DecimalZ SpecFloat.
Import ListNotations.
Local Open Scope Z_scope.

(** ** Go run-time values *)

Definition bytes := list byte.

(** A byte-string literal. *)
Definition bs (s : string) : bytes := list_byte_of_string s.

Definition len (s : bytes) : Z := Z.of_nat (List.length s).

Definition take (n : Z) (s : bytes) : bytes := firstn (Z.to_nat n) s.
Definition drop (n : Z) (s : bytes) : bytes := skipn (Z.to_nat n) s.

Inductive result (A : Type) : Type :=
| Ok (a : A)
| Panic.
Arguments Ok {A} a.
Arguments Panic {A}.

Definition bind {A B} (r : result A) (k : A -> result B) : result B :=
  match r with
  | Ok a => k a
  | Panic => Panic
  end.

Notation "x <- r ;; k" := (bind r (fun x => k))
  (at level 61, r at next level, right associativity).
Notation "' p <- r ;; k" := (bind r (fun p => k))
  (at level 61, p pattern, r at next level, right associativity).

(** A slice expression [a[lo:hi]] on a slice of length [n]: the window
    [(lo, hi)] into the backing array, or a panic.  Go checks
    [0 <= lo <= hi <= cap(a)]; every [hi] below is at most [len(a)], so
    checking against the length decides the same. *)
Definition window := (Z * Z)%type.

Definition reslice (n lo hi : Z) : result window :=
  if (0 <=? lo) && (lo <=? hi) && (hi <=? n) then Ok (lo, hi) else Panic.

(** [copy(dst, src)] where both are windows of the same array [a]: the
    number of bytes moved is the smaller length, and overlapping windows
    behave as with [memmove]. *)
Definition copy_within (a : bytes) (dst src : window) : bytes :=
  let n := Z.min (snd dst - fst dst) (snd src - fst src) in
  take (fst dst) a ++ take n (drop (fst src) a) ++ drop (fst dst + n) a.

(** [copy(dst, src)] where [src] is a separate slice. *)
Definition copy_from (a : bytes) (dst : window) (src : bytes) : bytes :=
  let n := Z.min (snd dst - fst dst) (len src) in
  take (fst dst) a ++ take n src ++ drop (fst dst + n) a.

(** [a[i] = b]. *)
Definition store (a : bytes) (i : Z) (b : byte) : result bytes :=
  if (0 <=? i) && (i <? len a) then Ok (take i a ++ b :: drop (i + 1) a)
  else Panic.

(** [a[i]]. *)
Definition index (a : bytes) (i : Z) : result byte :=
  if (0 <=? i) && (i <? len a)
  then match nth_error a (Z.to_nat i) with Some b => Ok b | None => Panic end
  else Panic.

(** ** splice *)

Definition splice (txt ins : bytes) (inspos : Z) : result bytes :=
  let ns := inspos + len ins in
  let txt := txt ++ ins in
  dst <- reslice (len txt) ns (len txt) ;;
  src <- reslice (len txt) inspos (len txt - 1) ;;
  let txt := copy_within txt dst src in
  dst' <- reslice (len txt) inspos ns ;;
  let txt := copy_from txt dst' ins in
  Ok txt.

(** ** Library functions the logger calls

    [strconv], [encoding/hex], [strings] and the conversion of a rune to
    a string are Go's, not this repository's; they are written out here
    from their documented behaviour. *)

(** Conversions to [int64], [uint64] and [int32] (two's complement). *)
Definition int64 (v : Z) : Z := (v + 2 ^ 63) mod 2 ^ 64 - 2 ^ 63.
Definition uint64 (v : Z) : Z := v mod 2 ^ 64.
Definition int32 (v : Z) : Z := (v + 2 ^ 31) mod 2 ^ 32 - 2 ^ 31.

(** [strconv.FormatInt(i, 10)] and [strconv.FormatUint(i, 10)]: decimal,
    no leading zeros, a sign only when negative. *)
Definition strconv_FormatInt (i : Z) : bytes :=
  list_byte_of_string (NilZero.string_of_int (Z.to_int i)).

Definition strconv_AppendInt (dst : bytes) (i : Z) : bytes :=
  dst ++ strconv_FormatInt i.

Definition strconv_AppendUint (dst : bytes) (i : Z) : bytes :=
  dst ++ strconv_FormatInt i.

(** [strconv.Itoa(i)] is [FormatInt(int64(i), 10)]. *)
Definition strconv_Itoa (i : Z) : bytes := strconv_FormatInt (int64 i).

(** [strconv.ParseInt(s, 10, bitSize)] and [strconv.ParseUint(s, 10,
    bitSize)], the readers the round trip is measured with: [None] is a
    syntax or range error. *)
Definition strconv_ParseInt (s : bytes) (bitSize : Z) : option Z :=
  match NilZero.int_of_string (string_of_list_byte s) with
  | Some d =>
      let v := Z.of_int d in
      if (- 2 ^ (bitSize - 1) <=? v) && (v <? 2 ^ (bitSize - 1))
      then Some v else None
  | None => None
  end.

Definition strconv_ParseUint (s : bytes) (bitSize : Z) : option Z :=
  match NilZero.int_of_string (string_of_list_byte s) with
  | Some (Decimal.Pos d) =>
      let v := Z.of_int (Decimal.Pos d) in
      if v <? 2 ^ bitSize then Some v else None
  | _ => None
  end.

(** [hex.EncodeToString]: two lowercase digits per byte. *)
Definition hexdigit (n : N) : byte :=
  nth (N.to_nat n) (bs "0123456789abcdef") "0"%byte.

Definition hex_EncodeToString (src : bytes) : bytes :=
  flat_map (fun b => [hexdigit (Byte.to_N b / 16); hexdigit (Byte.to_N b mod 16)])
           src.

(** [strings.HasPrefix]. *)
Fixpoint strings_HasPrefix (s prefix : bytes) : bool :=
  match prefix, s with
  | [], _ => true
  | p :: prefix', c :: s' => Byte.eqb c p && strings_HasPrefix s' prefix'
  | _ :: _, [] => false
  end.

(** [string(r)] for a rune [r]: its UTF-8 encoding, U+FFFD for a value
    that is no code point. *)
Definition byte_of_Z (z : Z) : byte :=
  match Byte.of_N (Z.to_N (z mod 256)) with
  | Some b => b
  | None => "000"%byte
  end.

Definition string_of_rune (r : Z) : bytes :=
  if (r <? 0) || (1114111 <? r) || ((55296 <=? r) && (r <=? 57343))
  then [byte_of_Z 239; byte_of_Z 191; byte_of_Z 189]
  else if r <? 128 then [byte_of_Z r]
  else if r <? 2048 then [byte_of_Z (192 + r / 64); byte_of_Z (128 + r mod 64)]
  else if r <? 65536
  then [byte_of_Z (224 + r / 4096); byte_of_Z (128 + (r / 64) mod 64);
        byte_of_Z (128 + r mod 64)]
  else [byte_of_Z (240 + r / 262144); byte_of_Z (128 + (r / 4096) mod 64);
        byte_of_Z (128 + (r / 64) mod 64); byte_of_Z (128 + r mod 64)].

(** [float32] and [float64] values are [spec_float]s; [float32(f)] rounds
    a [float64] to the nearest [float32] (ties to even, overflow to an
    infinity), and [float64(f)] of a [float32] is exact, so it is the
    identity on [spec_float]. *)
Definition float32 (f : spec_float) : spec_float :=
  match f with
  | S754_finite s m e => binary_normalize 24 128 (cond_Zopp s (Z.pos m)) e s
  | _ => f
  end.

(** An [error] value: [nil], or a value whose [Error()] text is given. *)
Definition error := option bytes.

(** [runtime.Caller(skip)]: the stack is the list of frames seen from the
    function that asks, frame 0 being that function; beyond the stack the
    answer is [("", 0, false)]. *)
Record Frame := mkFrame { file : bytes; line : Z }.

Definition runtime_Caller (stack : list Frame) (skip : Z) : bytes * Z * bool :=
  if skip <? 0 then ([], 0, false)
  else match nth_error stack (Z.to_nat skip) with
       | Some fr => (file fr, line fr, true)
       | None => ([], 0, false)
       end.

(** ** The data model *)

Definition Writer := nat.

Definition blammoLevels : Z := 3.

(** [Closer], the teardown callback, plays no part in an event's life and
    is left out. *)
Record Logger := mkLogger {
  ErrorWriter : option Writer;
  InfoWriter : option Writer;
  DebugWriter : option Writer;
  Timestamp : bytes;
  UTC : bool;
  MaxCallLevels : Z;
  IncludeSystemFiles : bool;
  ErrorTag : bytes;
  WarnTag : bytes;
  InfoTag : bytes;
  DebugTag : bytes;
  KeyStart : bytes;
  KeyEnd : bytes
}.

Record Event := mkEvent {
  txt : bytes;
  tag : bytes;
  keyStart : bytes;
  keyEnd : bytes;
  msgpos : Z;
  callLevels : Z;
  withSystem : bool;
  out : option Writer
}.

Definition set_txt (e : Event) (t : bytes) : Event :=
  mkEvent t (tag e) (keyStart e) (keyEnd e) (msgpos e) (callLevels e)
          (withSystem e) (out e).
Definition set_keyStart (e : Event) (k : bytes) : Event :=
  mkEvent (txt e) (tag e) k (keyEnd e) (msgpos e) (callLevels e)
          (withSystem e) (out e).
Definition set_keyEnd (e : Event) (k : bytes) : Event :=
  mkEvent (txt e) (tag e) (keyStart e) k (msgpos e) (callLevels e)
          (withSystem e) (out e).
Definition set_msgpos (e : Event) (p : Z) : Event :=
  mkEvent (txt e) (tag e) (keyStart e) (keyEnd e) p (callLevels e)
          (withSystem e) (out e).
Definition set_callLevels (e : Event) (n : Z) : Event :=
  mkEvent (txt e) (tag e) (keyStart e) (keyEnd e) (msgpos e) n
          (withSystem e) (out e).
Definition set_withSystem (e : Event) (b : bool) : Event :=
  mkEvent (txt e) (tag e) (keyStart e) (keyEnd e) (msgpos e) (callLevels e)
          b (out e).
Definition set_out (e : Event) (w : option Writer) : Event :=
  mkEvent (txt e) (tag e) (keyStart e) (keyEnd e) (msgpos e) (callLevels e)
          (withSystem e) w.

(** A field read through a possibly nil [*Event]. *)
Definition deref {A} (e : option Event) (f : Event -> A) : result A :=
  match e with
  | Some ev => Ok (f ev)
  | None => Panic
  end.

(** *** The stock loggers

    [os.Stdout] is writer 1 and [os.Stderr] is writer 2; the timestamp
    layout is [timestampFormat]. *)

Definition os_Stdout : Writer := 1%nat.
Definition os_Stderr : Writer := 2%nat.

Definition timestampFormat : bytes := bs "2006-01-02 15:04:05 ".

Definition esc : bytes := ["027"%byte].

Definition NewConsoleLogger : Logger :=
  mkLogger (Some os_Stderr) (Some os_Stdout) None timestampFormat false 3 false
    (bs "[" ++ esc ++ bs "[91mERROR" ++ esc ++ bs "[0m] ")
    (bs "[" ++ esc ++ bs "[93mWARN" ++ esc ++ bs "[0m ] ")
    (bs "[" ++ esc ++ bs "[92mINFO" ++ esc ++ bs "[0m ] ")
    (bs "[" ++ esc ++ bs "[37mDEBUG" ++ esc ++ bs "[0m] ")
    (esc ++ bs "[36m")
    (esc ++ bs "[0m").

Definition NewPipeLogger : Logger :=
  mkLogger (Some os_Stderr) (Some os_Stdout) None timestampFormat false 3 false
    (bs "[ERROR] ") (bs "[WARN ] ") (bs "[INFO ] ") (bs "[DEBUG] ") [] [].

Definition NewCloudLogger : Logger :=
  mkLogger (Some os_Stderr) (Some os_Stdout) None [] false 3 false
    (bs "[ERROR] ") (bs "[WARN ] ") (bs "[INFO ] ") (bs "[DEBUG] ") [] [].

(** *** Stand-ins for the worked examples

    A library to run the examples with (the properties hold for any), an
    event as [Info] makes it without a timestamp, and the stack a call of
    [Line] from [main] sees: [writeCallStack], [Line], [main], then the
    run-time's own frames. *)

Definition sample_ftoa (bitSize : Z) (f : spec_float) (fmt : byte) (prec : Z)
  : bytes := bs "1".
Definition sample_Sprintf (fmtstr : bytes) (vals : list unit) : bytes := fmtstr.
Definition sample_UTC (t : unit) : unit := t.
Definition sample_Format (t : unit) (layout : bytes) : bytes :=
  bs "2019-11-12 13:14:15 ".
Definition sample_MarshalText (t : unit) : bytes * error :=
  (bs "2019-11-12T13:14:15Z", None).
Definition sample_GOROOT : bytes := bs "/usr/local/go".

Definition sample_event : Event :=
  mkEvent (bs "[INFO ] ") [] [] [] 8 3 false (Some os_Stdout).

Definition sample_stack : list Frame :=
  [ mkFrame (bs "/home/user/go/src/github.com/lpar/blammo/blammo.go") 440;
    mkFrame (bs "/home/user/go/src/github.com/lpar/blammo/blammo.go") 463;
    mkFrame (bs "/home/user/go/src/github.com/lpar/blammo/example/example.go") 14;
    mkFrame (bs "/usr/local/go/src/runtime/proc.go") 203;
    mkFrame (bs "/usr/local/go/src/runtime/asm_amd64.s") 1357 ].

(** A stack whose frames beyond the logger's own are the program's. *)
Definition sample_deep_stack : list Frame :=
  [ mkFrame (bs "/home/user/go/src/github.com/lpar/blammo/blammo.go") 440;
    mkFrame (bs "/home/user/go/src/github.com/lpar/blammo/blammo.go") 482;
    mkFrame (bs "/home/user/go/src/github.com/lpar/blammo/log/log.go") 30;
    mkFrame (bs "/home/user/project/model/foo.go") 42;
    mkFrame (bs "/usr/local/go/src/net/http/server.go") 2007;
    mkFrame (bs "/home/user/project/main.go") 7 ].

(** The stack [log.Error()] sees when [example] calls it from [main]. *)
Definition sample_error_stack : list Frame :=
  [ mkFrame (bs "/home/user/go/src/github.com/lpar/blammo/blammo.go") 440;
    mkFrame (bs "/home/user/go/src/github.com/lpar/blammo/blammo.go") 463;
    mkFrame (bs "/home/user/go/src/github.com/lpar/blammo/log/log.go") 55;
    mkFrame (bs "/home/user/go/src/github.com/lpar/blammo/example/example.go") 10;
    mkFrame (bs "/home/user/go/src/github.com/lpar/blammo/example/example.go") 19;
    mkFrame (bs "/usr/local/go/src/runtime/proc.go") 203 ].

Definition sample_event_neg : Event :=
  mkEvent (bs "[INFO ] ") [] [] [] 8 (-1) false (Some os_Stdout).

(** A stack with eleven frames of the program above the logger's own. *)
Definition sample_long_stack : list Frame :=
  [ mkFrame (bs "/home/user/go/src/github.com/lpar/blammo/blammo.go") 440;
    mkFrame (bs "/home/user/go/src/github.com/lpar/blammo/blammo.go") 482;
    mkFrame (bs "/home/user/go/src/github.com/lpar/blammo/log/log.go") 30;
    mkFrame (bs "/srv/app/f0.go") 100; mkFrame (bs "/srv/app/f1.go") 101;
    mkFrame (bs "/srv/app/f2.go") 102; mkFrame (bs "/srv/app/f3.go") 103;
    mkFrame (bs "/srv/app/f4.go") 104; mkFrame (bs "/srv/app/f5.go") 105;
    mkFrame (bs "/srv/app/f6.go") 106; mkFrame (bs "/srv/app/f7.go") 107;
    mkFrame (bs "/srv/app/f8.go") 108; mkFrame (bs "/srv/app/f9.go") 109;
    mkFrame (bs "/srv/app/f10.go") 110 ].

(** ** abbreviate

    [range path] walks the runes of the string with their byte offsets.
    A byte ['/'] is never part of a longer UTF-8 sequence, and a byte that
    starts no valid sequence is one rune of its own, so the runes equal to
    ['/'] sit exactly at the bytes equal to ['/']: the walk is over bytes
    here.  The state is [(ls, ps)]. *)
Fixpoint abbreviate_range (path : bytes) (i : Z) (st : Z * Z) : Z * Z :=
  match path with
  | [] => st
  | c :: rest =>
      abbreviate_range rest (i + 1)
        (if Byte.eqb c "/"%byte then (i, fst st) else st)
  end.

Definition abbreviate (path : bytes) : result bytes :=
  let '(ls, ps) := abbreviate_range path 0 (0, 0) in
  c <- index path ps ;;
  let ps := if Byte.eqb c "/"%byte then ps + 1 else ps in
  w <- reslice (len path) ps (len path) ;;
  Ok (drop (fst w) path).

(** *** The claimed result: the last two ['/']-separated segments *)

Definition is_slash (c : byte) : bool := Byte.eqb c "/"%byte.

Fixpoint segments (path : bytes) : list bytes :=
  match path with
  | [] => [[]]
  | c :: rest =>
      if is_slash c then [] :: segments rest
      else match segments rest with
           | s :: ss => (c :: s) :: ss
           | [] => [[c]]
           end
  end.

Fixpoint join_slash (segs : list bytes) : bytes :=
  match segs with
  | [] => []
  | [s] => s
  | s :: rest => s ++ "/"%byte :: join_slash rest
  end.

Definition last_two (segs : list bytes) : list bytes :=
  skipn (List.length segs - 2) segs.

(** What the specification says of [abbreviate]. *)
Definition abbreviate_claimed (path : bytes) : bytes :=
  if (2 <=? List.length (segments path))%nat
  then join_slash (last_two (segments path))
  else path.

(** A path whose only ['/'] is its first byte. *)
Definition only_leading_slash (path : bytes) : bool :=
  match path with
  | c :: rest => is_slash c && negb (existsb is_slash rest)
  | [] => false
  end.

(** ** Events: the setters that need nothing from outside *)

Definition appendKey (e : Event) (key : bytes) : Event :=
  let e := set_txt e (txt e ++ keyStart e) in
  let e := set_txt e (txt e ++ key) in
  let e := set_txt e (txt e ++ keyEnd e) in
  set_txt e (txt e ++ ["="%byte]).

Definition Str (e : option Event) (key value : bytes) : option Event :=
  match e with
  | None => e
  | Some ev =>
      let ev := appendKey ev key in
      let ev := set_txt ev (txt ev ++ value) in
      let ev := set_txt ev (txt ev ++ [" "%byte]) in
      Some ev
  end.

Definition Bool (e : option Event) (key : bytes) (value : bool) : option Event :=
  match e with
  | None => e
  | Some _ => if value then Str e key (bs "true") else Str e key (bs "false")
  end.

Definition Bytes (e : option Event) (key value : bytes) : option Event :=
  match e with
  | None => e
  | Some _ => Str e key (hex_EncodeToString value)
  end.

Definition Err (e : option Event) (err : error) : option Event :=
  match e with
  | None => e
  | Some _ =>
      match err with
      | None => Str e (bs "@error") (bs "nil")
      | Some msg => Str e (bs "@error") msg
      end
  end.

Definition Int (e : option Event) (key : bytes) (value : Z) : option Event :=
  match e with
  | None => e
  | Some _ => Str e key (strconv_Itoa value)
  end.

(** The unsigned setters, [Uint8] to [Uint64], have one body: the value
    goes through [uint64(value)] into [strconv.AppendUint]. *)
Definition UintN (e : option Event) (key : bytes) (value : Z) : option Event :=
  match e with
  | None => e
  | Some ev =>
      let ev := appendKey ev key in
      let ev := set_txt ev (strconv_AppendUint (txt ev) (uint64 value)) in
      let ev := set_txt ev (txt ev ++ [" "%byte]) in
      Some ev
  end.

(** The signed setters, [Int8] to [Int64], likewise with [int64(value)]
    and [strconv.AppendInt]. *)
Definition IntN (e : option Event) (key : bytes) (value : Z) : option Event :=
  match e with
  | None => e
  | Some ev =>
      let ev := appendKey ev key in
      let ev := set_txt ev (strconv_AppendInt (txt ev) (int64 value)) in
      let ev := set_txt ev (txt ev ++ [" "%byte]) in
      Some ev
  end.

Definition Uint8 := UintN.
Definition Int8 := IntN.
Definition Uint16 := UintN.
Definition Int16 := IntN.
Definition Uint32 := UintN.
Definition Int32 := IntN.
Definition Uint64 := UintN.
Definition Int64 := IntN.

(** *** The older variant of the caller methods *)

Module Old.

Definition writeCaller (stack : list Frame) (e : option Event) (n : Z)
  : result (option Event) :=
  let '(fn, ln, _) := runtime_Caller stack n in
  if n =? 3 then
    let e := Int e (bs "@line") ln in
    p <- abbreviate fn ;;
    Ok (Str e (bs "@file") p)
  else
    let e := Int e (bs "@c_line") ln in
    p <- abbreviate fn ;;
    Ok (Str e (bs "@c_file") p).

Definition Line (stack : list Frame) (e : option Event) : result (option Event) :=
  match e with
  | None => Ok e
  | Some _ => writeCaller stack e 3
  end.

Definition Caller (stack : list Frame) (e : option Event) : result (option Event) :=
  match e with
  | None => Ok e
  | Some _ => writeCaller stack e 4
  end.

End Old.

(** ** Choosing a logger, and the [log] package's switch

    [NewLogger] asks whether standard output is a terminal and reads the
    environment variable [PORT]; both answers are arguments here.  The
    [log] package keeps one logger in the global [Logger], [g] here;
    [SetDebug] assigns to its [DebugWriter], which is a function on
    loggers here. *)

Definition NewLogger (stdout_is_terminal : bool) (PORT : bytes) : Logger :=
  if stdout_is_terminal then NewConsoleLogger
  else if negb (len PORT =? 0) then NewCloudLogger
  else NewPipeLogger.

Definition set_DebugWriter (l : Logger) (w : option Writer) : Logger :=
  mkLogger (ErrorWriter l) (InfoWriter l) w (Timestamp l) (UTC l)
           (MaxCallLevels l) (IncludeSystemFiles l)
           (ErrorTag l) (WarnTag l) (InfoTag l) (DebugTag l)
           (KeyStart l) (KeyEnd l).

Definition log_SetDebug (enabled : bool) (g : Logger) : Logger :=
  if enabled then set_DebugWriter g (Some os_Stderr)
  else set_DebugWriter g None.

(** ** Reading hexadecimal back

    [hex.DecodeString], the reader the text of [Bytes] is measured with:
    two digits of either case per byte, [None] on anything else. *)

Definition fromHexChar (c : byte) : option N :=
  let n := Byte.to_N c in
  if ((48 <=? n) && (n <=? 57))%N then Some (n - 48)%N
  else if ((97 <=? n) && (n <=? 102))%N then Some (n - 97 + 10)%N
  else if ((65 <=? n) && (n <=? 70))%N then Some (n - 65 + 10)%N
  else None.

Fixpoint hex_DecodeString (s : bytes) : option bytes :=
  match s with
  | [] => Some []
  | [_] => None
  | a :: b :: rest =>
      match fromHexChar a, fromHexChar b, hex_DecodeString rest with
      | Some x, Some y, Some r =>
          match Byte.of_N (x * 16 + y) with
          | Some c => Some (c :: r)
          | None => None
          end
      | _, _, _ => None
      end
  end.

(** ** Events and loggers *)

Section Blammo.

Set Default Proof Using "Type".

(** What the Go library supplies and this development does not look
    into: the float digit generator of [strconv] for a value of a given
    width ([ftoa bitSize f fmt prec]), [fmt.Sprintf], the [time.Time]
    values with their [UTC], [Format] and [MarshalText], and the answer of
    [runtime.GOROOT()]. *)
Variable ftoa : Z -> spec_float -> byte -> Z -> bytes.
Variable any : Type.
Variable fmt_Sprintf : bytes -> list any -> bytes.
Variable time_Time : Type.
Variable Time_UTC : time_Time -> time_Time.
Variable Time_Format : time_Time -> bytes -> bytes.
Variable Time_MarshalText : time_Time -> bytes * error.
Variable GOROOT : bytes.

(** [strconv.AppendFloat(dst, f, fmt, prec, bitSize)]: with [bitSize] 32
    the value is first converted to [float32] and the digits are those of
    that [float32]; any [bitSize] other than 32 and 64 panics. *)
Definition strconv_AppendFloat (dst : bytes) (f : spec_float) (fmt : byte)
    (prec bitSize : Z) : result bytes :=
  if bitSize =? 32 then Ok (dst ++ ftoa 32 (float32 f) fmt prec)
  else if bitSize =? 64 then Ok (dst ++ ftoa 64 f fmt prec)
  else Panic.

(** The process outside the event: what each writer was handed, in
    order; the events waiting in [eventPool]; the reading of the clock. *)
Record World := mkWorld {
  written : list (Writer * bytes);
  pool : list Event;
  now : time_Time
}.

(** [eventPool]: [Get] hands out a pooled event when there is one and a
    fresh one otherwise ([sync.Pool] may also drop pooled events; the
    events differ only in fields [newEvent] overwrites, and in [tag],
    which nothing reads). *)
Definition eventPool_New : Event := mkEvent [] [] [] [] 0 0 false None.

Definition eventPool_Get (wd : World) : Event * World :=
  match pool wd with
  | e :: rest => (e, mkWorld (written wd) rest (now wd))
  | [] => (eventPool_New, wd)
  end.

Definition eventPool_Put (e : Event) (wd : World) : World :=
  mkWorld (written wd) (e :: pool wd) (now wd).

(** [w.Write(p)]; the call's results are ignored by the logger. *)
Definition Write (w : option Writer) (p : bytes) (wd : World) : result World :=
  match w with
  | Some o => Ok (mkWorld (written wd ++ [(o, p)]) (pool wd) (now wd))
  | None => Panic
  end.

Definition newEvent (l : Logger) (w : option Writer) (tg : bytes) (wd : World)
  : option Event * World :=
  match w with
  | None => (None, wd)
  | Some _ =>
      let '(e, wd) := eventPool_Get wd in
      let e := set_keyStart e (KeyStart l) in
      let e := set_keyEnd e (KeyEnd l) in
      let e := set_out e w in
      let e := set_txt e (take 0 (txt e)) in
      let e :=
        if negb (len (Timestamp l) =? 0) then
          if UTC l
          then set_txt e (txt e ++ Time_Format (Time_UTC (now wd)) (Timestamp l))
          else set_txt e (txt e ++ Time_Format (now wd) (Timestamp l))
        else e in
      let e := set_txt e (txt e ++ tg) in
      let e := set_msgpos e (len (txt e)) in
      let e := set_callLevels e (MaxCallLevels l) in
      let e := set_withSystem e (IncludeSystemFiles l) in
      (Some e, wd)
  end.

Definition Debug (l : Logger) := newEvent l (DebugWriter l) (DebugTag l).
Definition Info (l : Logger) := newEvent l (InfoWriter l) (InfoTag l).
Definition Warn (l : Logger) := newEvent l (ErrorWriter l) (WarnTag l).
Definition Error (l : Logger) := newEvent l (ErrorWriter l) (ErrorTag l).

(** *** Field setters that call into the library *)

Definition Float32 (e : option Event) (key : bytes) (f : spec_float)
  : result (option Event) :=
  match e with
  | None => Ok e
  | Some ev =>
      let ev := appendKey ev key in
      t <- strconv_AppendFloat (txt ev) f "G"%byte (-1) 32 ;;
      let ev := set_txt ev t in
      let ev := set_txt ev (txt ev ++ [" "%byte]) in
      Ok (Some ev)
  end.

Definition Float64 (e : option Event) (key : bytes) (f : spec_float)
  : result (option Event) :=
  match e with
  | None => Ok e
  | Some ev =>
      let ev := appendKey ev key in
      t <- strconv_AppendFloat (txt ev) f "G"%byte (-1) 32 ;;
      let ev := set_txt ev t in
      let ev := set_txt ev (txt ev ++ [" "%byte]) in
      Ok (Some ev)
  end.

Definition Time (e : option Event) (key : bytes) (value : time_Time)
  : option Event :=
  match e with
  | None => e
  | Some ev =>
      let ev := appendKey ev key in
      let '(tv, err) := Time_MarshalText value in
      let tv :=
        match err with
        | Some msg => bs "error marshaling time: " ++ msg
        | None => tv
        end in
      let ev := set_txt ev (txt ev ++ tv) in
      let ev := set_txt ev (txt ev ++ [" "%byte]) in
      Some ev
  end.

(** *** The call stack *)

(** [lvl++] on a rune. *)
Definition rune_succ (lvl : Z) : Z := int32 (lvl + 1).

(** The loop of [writeCallStack], by the number [k] of rounds that
    [n < maxlevels] still allows; the result is the event and [walo]. *)
Fixpoint callStackLoop (stack : list Frame) (k : nat) (n lvl : Z) (walo : bool)
    (e : option Event) : result (option Event * bool) :=
  match k with
  | O => Ok (e, walo)
  | S k' =>
      let '(fn, ln, ok) := runtime_Caller stack (n + blammoLevels) in
      if ok then
        ws <- deref e withSystem ;;
        if ws || negb (strings_HasPrefix fn GOROOT) then
          p <- abbreviate fn ;;
          let e := Str e (bs "@file_" ++ string_of_rune lvl) p in
          let e := Int e (bs "@line_" ++ string_of_rune lvl) ln in
          callStackLoop stack k' (n + 1) (rune_succ lvl) true e
        else callStackLoop stack k' (n + 1) lvl walo e
      else Ok (e, walo)
  end.

Definition writeCallStack (stack : list Frame) (e : option Event) (maxlevels : Z)
  : result (option Event) :=
  if maxlevels =? 0 then Ok e
  else
    '(e, walo) <- callStackLoop stack (Z.to_nat maxlevels) 0 48 false e ;;
    if negb walo then Ok (Str e (bs "@file_0") (bs "unavailable"))
    else Ok e.

Definition Line (stack : list Frame) (e : option Event) : result (option Event) :=
  match e with
  | None => Ok e
  | Some _ => writeCallStack stack e 1
  end.

Definition Caller (stack : list Frame) (e : option Event) : result (option Event) :=
  match e with
  | None => Ok e
  | Some _ => writeCallStack stack e 2
  end.

Definition CallStack (stack : list Frame) (e : option Event)
  : result (option Event) :=
  match e with
  | None => Ok e
  | Some ev => writeCallStack stack e (callLevels ev)
  end.

(** *** Finalizers

    [Msg] and [Msgf] return nothing; the event in the result is the
    receiver as the call leaves it. *)
Definition Msg (e : option Event) (msg : bytes) (wd : World)
  : result (option Event * World) :=
  match e with
  | None => Ok (e, wd)
  | Some ev =>
      let bsx := msg ++ bs " " in
      t <- splice (txt ev) bsx (msgpos ev) ;;
      let ev := set_txt ev t in
      t <- store (txt ev) (len (txt ev) - 1) "010"%byte ;;
      let ev := set_txt ev t in
      wd <- Write (out ev) (txt ev) wd ;;
      Ok (Some ev, eventPool_Put ev wd)
  end.

Definition Msgf (e : option Event) (fmtstr : bytes) (vals : list any) (wd : World)
  : result (option Event * World) :=
  match e with
  | None => Ok (e, wd)
  | Some _ =>
      let msg := fmt_Sprintf fmtstr vals in
      Msg e msg wd
  end.


(** *** Calls on an event, as data *)

Inductive Field : Type :=
| FStr (key value : bytes)
| FBool (key : bytes) (value : bool)
| FBytes (key value : bytes)
| FErr (err : error)
| FFloat32 (key : bytes) (f : spec_float)
| FFloat64 (key : bytes) (f : spec_float)
| FInt (key : bytes) (value : Z)
| FUint8 (key : bytes) (value : Z)
| FInt8 (key : bytes) (value : Z)
| FUint16 (key : bytes) (value : Z)
| FInt16 (key : bytes) (value : Z)
| FUint32 (key : bytes) (value : Z)
| FInt32 (key : bytes) (value : Z)
| FUint64 (key : bytes) (value : Z)
| FInt64 (key : bytes) (value : Z)
| FTime (key : bytes) (value : time_Time).

Definition setField (f : Field) (e : option Event) : result (option Event) :=
  match f with
  | FStr k v => Ok (Str e k v)
  | FBool k v => Ok (Bool e k v)
  | FBytes k v => Ok (Bytes e k v)
  | FErr err => Ok (Err e err)
  | FFloat32 k x => Float32 e k x
  | FFloat64 k x => Float64 e k x
  | FInt k v => Ok (Int e k v)
  | FUint8 k v => Ok (Uint8 e k v)
  | FInt8 k v => Ok (Int8 e k v)
  | FUint16 k v => Ok (Uint16 e k v)
  | FInt16 k v => Ok (Int16 e k v)
  | FUint32 k v => Ok (Uint32 e k v)
  | FInt32 k v => Ok (Int32 e k v)
  | FUint64 k v => Ok (Uint64 e k v)
  | FInt64 k v => Ok (Int64 e k v)
  | FTime k v => Ok (Time e k v)
  end.

(** A call carries the stack [runtime.Caller] would see at its site. *)
Inductive Call : Type :=
| CField (f : Field)
| CLine (stack : list Frame)
| CCaller (stack : list Frame)
| CCallStack (stack : list Frame)
| CMsg (msg : bytes)
| CMsgf (fmtstr : bytes) (vals : list any).

Definition is_builder (c : Call) : bool :=
  match c with
  | CMsg _ | CMsgf _ _ => false
  | _ => true
  end.

Definition invoke (c : Call) (e : option Event) (wd : World)
  : result (option Event * World) :=
  match c with
  | CField f => e' <- setField f e ;; Ok (e', wd)
  | CLine stack => e' <- Line stack e ;; Ok (e', wd)
  | CCaller stack => e' <- Caller stack e ;; Ok (e', wd)
  | CCallStack stack => e' <- CallStack stack e ;; Ok (e', wd)
  | CMsg msg => Msg e msg wd
  | CMsgf fmtstr vals => Msgf e fmtstr vals wd
  end.

(** A chain of calls, each on the event the one before left. *)
Fixpoint run (cs : list Call) (e : option Event) (wd : World)
  : result (option Event * World) :=
  match cs with
  | [] => Ok (e, wd)
  | c :: rest => '(e', wd') <- invoke c e wd ;; run rest e' wd'
  end.

(** *** What a field looks like in the buffer *)

Definition field_bytes (ev : Event) (key value : bytes) : bytes :=
  keyStart ev ++ key ++ keyEnd ev ++ "="%byte :: value ++ [" "%byte].

Definition field_key (f : Field) : bytes :=
  match f with
  | FStr k _ | FBool k _ | FBytes k _ | FFloat32 k _ | FFloat64 k _
  | FInt k _ | FUint8 k _ | FInt8 k _ | FUint16 k _ | FInt16 k _
  | FUint32 k _ | FInt32 k _ | FUint64 k _ | FInt64 k _ | FTime k _ => k
  | FErr _ => bs "@error"
  end.

(** The text each setter renders its value to. *)
Definition field_value (f : Field) : bytes :=
  match f with
  | FStr _ v => v
  | FBool _ v => if v then bs "true" else bs "false"
  | FBytes _ v => hex_EncodeToString v
  | FErr None => bs "nil"
  | FErr (Some msg) => msg
  | FFloat32 _ x | FFloat64 _ x => ftoa 32 (float32 x) "G"%byte (-1)
  | FInt _ v => strconv_FormatInt (int64 v)
  | FUint8 _ v | FUint16 _ v | FUint32 _ v | FUint64 _ v =>
      strconv_FormatInt (uint64 v)
  | FInt8 _ v | FInt16 _ v | FInt32 _ v | FInt64 _ v =>
      strconv_FormatInt (int64 v)
  | FTime _ t =>
      match Time_MarshalText t with
      | (_, Some msg) => bs "error marshaling time: " ++ msg
      | (tv, None) => tv
      end
  end.

Definition fields_bytes (ev : Event) (fs : list Field) : bytes :=
  flat_map (fun f => field_bytes ev (field_key f) (field_value f)) fs.

(** [a] with its last byte replaced by a newline. *)
Definition end_line (a : bytes) : bytes := removelast a ++ ["010"%byte].

(** The timestamp [newEvent] writes. *)
Definition timestamp_of (l : Logger) (wd : World) : bytes :=
  if negb (len (Timestamp l) =? 0) then
    if UTC l then Time_Format (Time_UTC (now wd)) (Timestamp l)
    else Time_Format (now wd) (Timestamp l)
  else [].

(** *** What a walk of the stack leaves in the buffer *)

Definition keep_frame (ev : Event) (fr : Frame) : bool :=
  withSystem ev || negb (strings_HasPrefix (file fr) GOROOT).

Definition visited_frames (stack : list Frame) (maxlevels : Z) : list Frame :=
  firstn (Z.to_nat maxlevels) (skipn (Z.to_nat blammoLevels) stack).

Definition emitted_frames (ev : Event) (stack : list Frame) (maxlevels : Z)
  : list Frame :=
  filter (keep_frame ev) (visited_frames stack maxlevels).

(** A frame whose file name is not empty. *)
Definition has_file (fr : Frame) : bool :=
  match file fr with
  | [] => false
  | _ :: _ => true
  end.

Definition abbreviated (path : bytes) : bytes :=
  match abbreviate path with
  | Ok p => p
  | Panic => []
  end.

Fixpoint frame_fields (ev : Event) (lvl : Z) (frs : list Frame) : bytes :=
  match frs with
  | [] => []
  | fr :: rest =>
      field_bytes ev (bs "@file_" ++ string_of_rune lvl) (abbreviated (file fr))
      ++ field_bytes ev (bs "@line_" ++ string_of_rune lvl) (strconv_Itoa (line fr))
      ++ frame_fields ev (rune_succ lvl) rest
  end.

(** The two values [Float64] is tried on: 1 and its successor among the
    [float64]s, 1 + 2^-52. *)
Definition f64_one : spec_float := S754_finite false 4503599627370496 (-52).
Definition f64_one_succ : spec_float := S754_finite false 4503599627370497 (-52).

(** *** Whole log statements *)

(** [l.<Severity>().f1(...)...fk(...).Msg(M)] with the severity's writer
    [w] and tag [tg]. *)
Definition statement (l : Logger) (w : option Writer) (tg : bytes)
    (fs : list Field) (M : bytes) (wd : World)
  : result (option Event * World) :=
  run (map CField fs ++ [CMsg M])
      (fst (newEvent l w tg wd)) (snd (newEvent l w tg wd)).

(** An event that carries a logger's key markers and nothing else. *)
Definition key_markers (l : Logger) : Event :=
  mkEvent [] [] (KeyStart l) (KeyEnd l) 0 0 false None.

(** The fields as a logger's events lay them out. *)
Definition logger_fields (l : Logger) (fs : list Field) : bytes :=
  fields_bytes (mkEvent [] [] (KeyStart l) (KeyEnd l) 0 0 false None) fs.

(** The line of a statement. *)
Definition line_of (l : Logger) (tg : bytes) (fs : list Field) (M : bytes)
    (wd : World) : bytes :=
  end_line (timestamp_of l wd ++ tg ++ M ++ bs " " ++ logger_fields l fs).

(** What the writers have been handed once a computation returns. *)
Definition written_after (r : result (option Event * World))
  : option (list (Writer * bytes)) :=
  match r with
  | Ok (_, wd) => Some (written wd)
  | Panic => None
  end.

(** Every frame of the stack a call sees has a file name. *)
Definition named_stack (c : Call) : bool :=
  match c with
  | CLine stack | CCaller stack | CCallStack stack => forallb has_file stack
  | _ => true
  end.

(** The two fields of one frame, numbered by the rune [lvl]. *)
Definition frame_pair (ev : Event) (lvl : Z) (fr : Frame) : bytes :=
  field_bytes ev (bs "@file_" ++ string_of_rune lvl) (abbreviated (file fr))
  ++ field_bytes ev (bs "@line_" ++ string_of_rune lvl) (strconv_Itoa (line fr)).

(** The fallback field. *)
Definition fallback_field (ev : Event) : bytes :=
  field_bytes ev (bs "@file_0") (bs "unavailable").

(** *** The [log] package's [Error] (its second variant)

    [Logger.Error().Line().Caller()] on the global logger [g]: [sLine] and
    [sCaller] are the stacks the two walks see. *)
Definition log_Error (g : Logger) (sLine sCaller : list Frame) (wd : World)
  : result (option Event * World) :=
  let '(e, wd') := Error g wd in
  e <- Line sLine e ;;
  e <- Caller sCaller e ;;
  Ok (e, wd').

(** *** The numbering the documentation of [CallStack] has

    [@file_0..@file_n] and [@line_0..@line_n]: the frames emitted, each
    under its position written as a decimal number, from [n] on. *)
Fixpoint numbered_fields (ev : Event) (n : nat) (frs : list Frame) : bytes :=
  match frs with
  | [] => []
  | fr :: rest =>
      field_bytes ev (bs "@file_" ++ strconv_FormatInt (Z.of_nat n))
                  (abbreviated (file fr))
      ++ field_bytes ev (bs "@line_" ++ strconv_FormatInt (Z.of_nat n))
                     (strconv_Itoa (line fr))
      ++ numbered_fields ev (S n) rest
  end.

(** *** What each builder call appends *)

Definition walk_bytes (ev : Event) (stack : list Frame) (maxlevels : Z) : bytes :=
  if maxlevels =? 0 then []
  else match emitted_frames ev stack maxlevels with
       | [] => fallback_field ev
       | fr :: frs => frame_fields ev 48 (fr :: frs)
       end.

Definition call_bytes (ev : Event) (c : Call) : bytes :=
  match c with
  | CField f => field_bytes ev (field_key f) (field_value f)
  | CLine stack => walk_bytes ev stack 1
  | CCaller stack => walk_bytes ev stack 2
  | CCallStack stack => walk_bytes ev stack (callLevels ev)
  | CMsg _ | CMsgf _ _ => []
  end.

Definition chain_bytes (ev : Event) (cs : list Call) : bytes :=
  flat_map (call_bytes ev) cs.

(** * Properties *)

(** The two rows of [spliceTests]. *)
Example splice_test_1 :
  splice (bs "abcdefg") (bs "zzz") 3 = Ok (bs "abczzzdefg").
Proof. reflexivity. Qed.

Example splice_test_2 :
  splice (bs "abcdefg") (bs "1234567890") 6 = Ok (bs "abcdef1234567890g").
Proof. reflexivity. Qed.
(** ** Facts on lengths, [take] and [drop] *)

Lemma len_nonneg s : 0 <= len s.
Proof. unfold len; lia. Qed.

Lemma len_app s t : len (s ++ t) = len s + len t.
Proof. unfold len; rewrite length_app; lia. Qed.

Lemma len_nil_iff s : len s = 0 <-> s = [].
Proof.
  unfold len; split.
  - destruct s; [reflexivity | simpl; lia].
  - intros ->; reflexivity.
Qed.

Lemma take_drop n s : take n s ++ drop n s = s.
Proof. apply firstn_skipn. Qed.

Lemma len_take n s : 0 <= n <= len s -> len (take n s) = n.
Proof.
  unfold len, take; intros H; rewrite length_firstn; lia.
Qed.

Lemma len_drop n s : 0 <= n <= len s -> len (drop n s) = len s - n.
Proof.
  unfold len, drop; intros H; rewrite length_skipn; lia.
Qed.

Lemma take_app_len s t : take (len s) (s ++ t) = s.
Proof.
  unfold take, len; rewrite Nat2Z.id, firstn_app, Nat.sub_diag, firstn_all.
  simpl; apply app_nil_r.
Qed.

Lemma drop_app_len s t : drop (len s) (s ++ t) = t.
Proof.
  unfold drop, len; rewrite Nat2Z.id, skipn_app, Nat.sub_diag, skipn_all.
  reflexivity.
Qed.

Lemma take_all n s : len s <= n -> take n s = s.
Proof. unfold take, len; intros H; apply firstn_all2; lia. Qed.

Lemma drop_all n s : len s <= n -> drop n s = [].
Proof. unfold drop, len; intros H; apply skipn_all2; lia. Qed.

Lemma take_app_le n s t : 0 <= n <= len s -> take n (s ++ t) = take n s.
Proof.
  unfold take, len; intros H; rewrite firstn_app.
  replace (Z.to_nat n - List.length s)%nat with 0%nat by lia.
  simpl; apply app_nil_r.
Qed.

Lemma drop_app_le n s t : 0 <= n <= len s -> drop n (s ++ t) = drop n s ++ t.
Proof.
  unfold drop, len; intros H; rewrite skipn_app.
  replace (Z.to_nat n - List.length s)%nat with 0%nat by lia.
  reflexivity.
Qed.

Lemma drop_app_ge n s t :
  len s <= n -> drop n (s ++ t) = drop (n - len s) t.
Proof.
  unfold drop, len; intros H; rewrite skipn_app, skipn_all2 by lia.
  simpl; f_equal; lia.
Qed.

Lemma take_0 s : take 0 s = [].
Proof. reflexivity. Qed.

Lemma drop_0 s : drop 0 s = s.
Proof. reflexivity. Qed.

(** ** splice: what it returns, and where it panics *)

Lemma reslice_ok n lo hi :
  0 <= lo -> lo <= hi -> hi <= n -> reslice n lo hi = Ok (lo, hi).
Proof.
  intros H1 H2 H3; unfold reslice.
  apply Z.leb_le in H1, H2, H3; rewrite H1, H2, H3; reflexivity.
Qed.

Lemma reslice_panic n lo hi : hi < lo -> reslice n lo hi = Panic.
Proof.
  intros H; unfold reslice.
  apply Z.leb_gt in H; rewrite H, andb_false_r; reflexivity.
Qed.

(** With something to insert, [splice] is an insertion at [inspos]. *)
Lemma splice_insert (B I : bytes) (P : Z) :
  0 <= P <= len B -> I <> [] ->
  splice B I P = Ok (take P B ++ I ++ drop P B).
Proof.
  intros HP HI.
  assert (HlI : 0 < len I).
  { pose proof (len_nonneg I). destruct (Z.eq_dec (len I) 0) as [E|E]; [|lia].
    apply len_nil_iff in E; contradiction. }
  unfold splice.
  rewrite len_app.
  rewrite reslice_ok by lia. cbn [bind].
  rewrite reslice_ok by lia. cbn [bind].
  unfold copy_within; cbn [fst snd].
  replace (Z.min (len B + len I - (P + len I)) (len B + len I - 1 - P))
    with (len B - P) by lia.
  set (txt1 := take (P + len I) (B ++ I) ++
               take (len B - P) (drop P (B ++ I)) ++
               drop (P + len I + (len B - P)) (B ++ I)).
  assert (E1 : take (len B - P) (drop P (B ++ I)) = drop P B).
  { rewrite drop_app_le by lia.
    rewrite <- (len_drop P B) by lia. apply take_app_len. }
  assert (E2 : drop (P + len I + (len B - P)) (B ++ I) = []).
  { apply drop_all; rewrite len_app; lia. }
  assert (L1 : len (take (P + len I) (B ++ I)) = P + len I).
  { apply len_take; rewrite len_app; lia. }
  assert (Etxt1 : txt1 = take (P + len I) (B ++ I) ++ drop P B).
  { unfold txt1; rewrite E1, E2, app_nil_r; reflexivity. }
  assert (Ltxt1 : len txt1 = len B + len I).
  { rewrite Etxt1, len_app, L1, len_drop by lia; lia. }
  rewrite Ltxt1, reslice_ok by lia. cbn [bind].
  unfold copy_from; cbn [fst snd].
  replace (Z.min (P + len I - P) (len I)) with (len I) by lia.
  rewrite (take_all (len I) I) by lia.
  f_equal. f_equal.
  - rewrite Etxt1, take_app_le by lia.
    unfold take; rewrite firstn_firstn.
    replace (Nat.min (Z.to_nat P) (Z.to_nat (P + len I))) with (Z.to_nat P) by lia.
    fold (take P (B ++ I)). apply take_app_le; lia.
  - f_equal. rewrite Etxt1.
    rewrite <- L1 at 1. apply drop_app_len.
Qed.

(** With nothing to insert strictly inside the buffer, [splice] returns
    the buffer as it was. *)
Lemma splice_empty_inside (B : bytes) (P : Z) :
  0 <= P < len B -> splice B [] P = Ok B.
Proof.
  intros HP. unfold splice.
  rewrite app_nil_r. change (len []) with 0. rewrite Z.add_0_r.
  rewrite reslice_ok by lia. cbn [bind].
  rewrite reslice_ok by lia. cbn [bind].
  unfold copy_within; cbn [fst snd].
  replace (Z.min (len B - P) (len B - 1 - P)) with (len B - 1 - P) by lia.
  assert (E : take P B ++ take (len B - 1 - P) (drop P B) ++
              drop (P + (len B - 1 - P)) B = B).
  { replace (drop (P + (len B - 1 - P)) B)
      with (drop (len B - 1 - P) (drop P B)).
    - rewrite take_drop. apply take_drop.
    - unfold drop; rewrite skipn_skipn. f_equal; lia. }
  rewrite E.
  rewrite reslice_ok by lia. cbn [bind].
  unfold copy_from; cbn [fst snd]. change (len []) with 0.
  replace (Z.min (P - P) 0) with 0 by lia.
  rewrite take_0, Z.add_0_r. cbn [app]. rewrite take_drop. reflexivity.
Qed.

(** C1: inserting nothing at the end of a buffer does not return the
    buffer: the source window [txt[inspos:len(txt)-1]] has its lower bound
    above its upper bound, and [splice] panics. *)
Theorem splice_nothing_at_end_panics (B : bytes) :
  splice B [] (len B) = Panic.
Proof.
  unfold splice. rewrite app_nil_r. change (len []) with 0.
  rewrite Z.add_0_r.
  pose proof (len_nonneg B).
  rewrite reslice_ok by lia. cbn [bind].
  rewrite reslice_panic by lia. reflexivity.
Qed.

(** X1: everywhere else in the claimed domain (something to insert, or
    an offset inside the buffer) [splice] is the insertion. *)
Lemma splice_spec (B I : bytes) (P : Z) :
  0 <= P <= len B -> I <> [] \/ P < len B ->
  splice B I P = Ok (take P B ++ I ++ drop P B).
Proof.
  intros HP [HI | Hlt].
  - apply splice_insert; assumption.
  - destruct I as [|c I'].
    + rewrite splice_empty_inside by lia. cbn [app].
      rewrite take_drop. reflexivity.
    + apply splice_insert; [assumption | discriminate].
Qed.

(** At the end of the buffer an insertion is an append. *)
Lemma splice_at_end (B I : bytes) :
  I <> [] -> splice B I (len B) = Ok (B ++ I).
Proof.
  intros HI. pose proof (len_nonneg B).
  rewrite splice_insert by (lia || assumption).
  rewrite take_all, drop_all by lia. rewrite app_nil_r. reflexivity.
Qed.

(** ** Events: field setters *)

Ltac ev_simpl :=
  unfold set_txt, set_keyStart, set_keyEnd, set_msgpos, set_callLevels,
         set_withSystem, set_out;
  cbn [txt tag keyStart keyEnd msgpos callLevels withSystem out].

Lemma set_txt_same ev : set_txt ev (txt ev) = ev.
Proof. destruct ev; reflexivity. Qed.

Lemma set_txt_twice ev a b : set_txt (set_txt ev a) b = set_txt ev b.
Proof. reflexivity. Qed.

Lemma field_bytes_set_txt ev t k v :
  field_bytes (set_txt ev t) k v = field_bytes ev k v.
Proof. reflexivity. Qed.

Lemma appendKey_txt ev key :
  appendKey ev key =
  set_txt ev (txt ev ++ keyStart ev ++ key ++ keyEnd ev ++ ["="%byte]).
Proof.
  unfold appendKey; ev_simpl. f_equal.
  repeat rewrite <- app_assoc. reflexivity.
Qed.

(** What follows the key: any text [v], then a space. *)
Lemma append_value ev key v :
  set_txt (set_txt (appendKey ev key) (txt (appendKey ev key) ++ v))
          (txt (set_txt (appendKey ev key) (txt (appendKey ev key) ++ v))
           ++ [" "%byte])
  = set_txt ev (txt ev ++ field_bytes ev key v).
Proof.
  rewrite appendKey_txt; ev_simpl. unfold field_bytes. f_equal.
  repeat rewrite <- app_assoc. reflexivity.
Qed.

Lemma Str_some ev key value :
  Str (Some ev) key value = Some (set_txt ev (txt ev ++ field_bytes ev key value)).
Proof. unfold Str. rewrite append_value. reflexivity. Qed.

Lemma Int_some ev key value :
  Int (Some ev) key value =
  Some (set_txt ev (txt ev ++ field_bytes ev key (strconv_Itoa value))).
Proof. unfold Int. apply Str_some. Qed.

Lemma setField_some ev f :
  setField f (Some ev) =
  Ok (Some (set_txt ev (txt ev ++ field_bytes ev (field_key f) (field_value f)))).
Proof.
  destruct f; cbn [setField field_key field_value].
  - rewrite Str_some; reflexivity.
  - unfold Bool. destruct value; rewrite Str_some; reflexivity.
  - unfold Bytes. rewrite Str_some; reflexivity.
  - unfold Err. destruct err; rewrite Str_some; reflexivity.
  - unfold Float32, strconv_AppendFloat. cbn [Z.eqb Pos.eqb bind].
    rewrite append_value. reflexivity.
  - unfold Float64, strconv_AppendFloat. cbn [Z.eqb Pos.eqb bind].
    rewrite append_value. reflexivity.
  - rewrite Int_some; reflexivity.
  - unfold Uint8, UintN, strconv_AppendUint. rewrite append_value. reflexivity.
  - unfold Int8, IntN, strconv_AppendInt. rewrite append_value. reflexivity.
  - unfold Uint16, UintN, strconv_AppendUint. rewrite append_value. reflexivity.
  - unfold Int16, IntN, strconv_AppendInt. rewrite append_value. reflexivity.
  - unfold Uint32, UintN, strconv_AppendUint. rewrite append_value. reflexivity.
  - unfold Int32, IntN, strconv_AppendInt. rewrite append_value. reflexivity.
  - unfold Uint64, UintN, strconv_AppendUint. rewrite append_value. reflexivity.
  - unfold Int64, IntN, strconv_AppendInt. rewrite append_value. reflexivity.
  - unfold Time. destruct (Time_MarshalText value) as [tv [msg|]];
      rewrite append_value; reflexivity.
Qed.

(** C8: a field is the key between the two highlight markers, ['='], the
    rendered value and one space, appended to the buffer; key and value
    go in byte for byte.  The first part is [Str] with any key and value,
    the second every typed setter with the text it renders. *)
Theorem field_layout :
  (forall (ev : Event) (K V : bytes),
      Str (Some ev) K V =
      Some (set_txt ev (txt ev ++ keyStart ev ++ K ++ keyEnd ev
                               ++ "="%byte :: V ++ [" "%byte])))
  /\
  (forall (ev : Event) (f : Field),
      setField f (Some ev) =
      Ok (Some (set_txt ev (txt ev ++ keyStart ev ++ field_key f ++ keyEnd ev
                                   ++ "="%byte :: field_value f ++ [" "%byte])))).
Proof.
  split; intros.
  - apply Str_some.
  - apply setField_some.
Qed.

(** ** Events: the absent event *)

Lemma setField_nil f : setField f None = Ok None.
Proof. destruct f; reflexivity. Qed.

Lemma invoke_nil c wd : invoke c None wd = Ok (None, wd).
Proof.
  destruct c; cbn [invoke]; try reflexivity.
  rewrite setField_nil; reflexivity.
Qed.

Lemma run_nil cs wd : run cs None wd = Ok (None, wd).
Proof.
  induction cs as [|c cs IH]; cbn [run].
  - reflexivity.
  - rewrite invoke_nil. cbn [bind]. exact IH.
Qed.

(** C3: on the absent event every call, finalizers included, leaves the
    absent event and the world as they were, and so does every chain of
    calls; nothing panics and nothing is written. *)
Theorem nil_event_is_inert :
  forall (cs : list Call) (wd : World),
    Forall (fun c => invoke c None wd = Ok (None, wd)) cs
    /\ run cs None wd = Ok (None, wd).
Proof.
  intros cs wd; split.
  - apply Forall_forall; intros c _. apply invoke_nil.
  - apply run_nil.
Qed.

Lemma newEvent_nil l tg wd : newEvent l None tg wd = (None, wd).
Proof. reflexivity. Qed.

(** C4: a severity whose writer is nil yields the absent event, and any
    chain of calls on it ends with the world untouched: nothing is handed
    to any writer.  [Warn] shares the writer of [Error]. *)
Theorem disabled_severity_is_silent :
  forall (l : Logger) (wd : World) (cs : list Call),
    (DebugWriter l = None ->
       Debug l wd = (None, wd) /\
       run cs (fst (Debug l wd)) (snd (Debug l wd)) = Ok (None, wd))
    /\ (InfoWriter l = None ->
       Info l wd = (None, wd) /\
       run cs (fst (Info l wd)) (snd (Info l wd)) = Ok (None, wd))
    /\ (ErrorWriter l = None ->
       Warn l wd = (None, wd) /\
       run cs (fst (Warn l wd)) (snd (Warn l wd)) = Ok (None, wd))
    /\ (ErrorWriter l = None ->
       Error l wd = (None, wd) /\
       run cs (fst (Error l wd)) (snd (Error l wd)) = Ok (None, wd)).
Proof.
  intros l wd cs.
  repeat split; unfold Debug, Info, Warn, Error; rewrite H;
    try reflexivity; cbn [newEvent fst snd]; apply run_nil.
Qed.

(** ** abbreviate *)

Lemma is_slash_true c : is_slash c = true -> c = "/"%byte.
Proof. apply byte_dec_bl. Qed.

Lemma is_slash_slash : is_slash "/"%byte = true.
Proof. reflexivity. Qed.

Lemma range_app a b i st :
  abbreviate_range (a ++ b) i st =
  abbreviate_range b (i + len a) (abbreviate_range a i st).
Proof.
  revert i st; induction a as [|c a IH]; intros i st; cbn [app abbreviate_range].
  - change (len []) with 0. rewrite Z.add_0_r. reflexivity.
  - rewrite IH. f_equal. unfold len; cbn [List.length]. lia.
Qed.

Lemma range_no_slash s i st :
  existsb is_slash s = false -> abbreviate_range s i st = st.
Proof.
  revert i st; induction s as [|c s IH]; intros i st H; cbn [abbreviate_range].
  - reflexivity.
  - cbn [existsb] in H. apply orb_false_iff in H as [Hc Hs].
    unfold is_slash in Hc. rewrite Hc. apply IH; assumption.
Qed.

(** Every path is free of ['/'], or ends in a ['/'] and a last segment
    free of it. *)
Lemma last_slash path :
  existsb is_slash path = false \/
  exists a s, path = a ++ "/"%byte :: s /\ existsb is_slash s = false.
Proof.
  induction path as [|c p IH].
  - left; reflexivity.
  - destruct IH as [Hp | (a & s & -> & Hs)].
    + destruct (is_slash c) eqn:Hc.
      * right. exists [], p. apply is_slash_true in Hc; subst c.
        split; [reflexivity | assumption].
      * left. cbn [existsb]. rewrite Hc, Hp. reflexivity.
    + right. exists (c :: a), s. split; [reflexivity | assumption].
Qed.

Lemma len_cons c s : len (c :: s) = len s + 1.
Proof. unfold len; cbn [List.length]; lia. Qed.

Lemma index_at_len a c r : index (a ++ c :: r) (len a) = Ok c.
Proof.
  unfold index. pose proof (len_nonneg a). pose proof (len_nonneg r).
  assert (E : (0 <=? len a) && (len a <? len (a ++ c :: r)) = true).
  { rewrite len_app, len_cons.
    apply andb_true_intro; split; [apply Z.leb_le | apply Z.ltb_lt]; lia. }
  rewrite E. unfold len. rewrite Nat2Z.id.
  rewrite nth_error_app2 by lia. rewrite Nat.sub_diag. reflexivity.
Qed.

Lemma drop_after a c r : drop (len a + 1) (a ++ c :: r) = r.
Proof.
  rewrite drop_app_ge by lia.
  replace (len a + 1 - len a) with 1 by lia. reflexivity.
Qed.

Lemma segments_not_nil path : segments path <> [].
Proof.
  destruct path as [|c p]; cbn [segments]; [discriminate|].
  destruct (is_slash c); [discriminate|].
  destruct (segments p); discriminate.
Qed.

Lemma segments_no_slash s : existsb is_slash s = false -> segments s = [s].
Proof.
  induction s as [|c s IH]; intros H; cbn [segments].
  - reflexivity.
  - cbn [existsb] in H. apply orb_false_iff in H as [Hc Hs].
    rewrite Hc, (IH Hs). reflexivity.
Qed.

Lemma segments_app a r :
  segments (a ++ "/"%byte :: r) = segments a ++ segments r.
Proof.
  induction a as [|c a IH]; cbn [app segments].
  - reflexivity.
  - rewrite IH. destruct (is_slash c); [reflexivity|].
    pose proof (segments_not_nil a) as Ha.
    destruct (segments a) as [|s ss]; [contradiction | reflexivity].
Qed.

Lemma last_two_app (pre : list bytes) s1 s2 :
  last_two (pre ++ [s1; s2]) = [s1; s2].
Proof.
  unfold last_two. rewrite length_app. cbn [List.length].
  replace (List.length pre + 2 - 2)%nat with (List.length pre + 0)%nat by lia.
  rewrite skipn_app, Nat.add_0_r, skipn_all.
  replace (List.length pre - List.length pre)%nat with 0%nat by lia.
  reflexivity.
Qed.

(** What [abbreviate] returns on a path with something in it: the last
    two segments when the path has them, the path itself when it has one
    segment, and the rest of the path when its only ['/'] comes first. *)
Lemma abbreviate_cons (c : byte) (p : bytes) :
  abbreviate (c :: p) =
  Ok (if only_leading_slash (c :: p) then p else abbreviate_claimed (c :: p)).
Proof.
  destruct (last_slash (c :: p)) as [Hno | (a & s & Hpath & Hs)].
  - (* one segment *)
    unfold abbreviate. rewrite range_no_slash by assumption.
    assert (Hc : is_slash c = false).
    { cbn [existsb] in Hno. apply orb_false_iff in Hno.
      destruct Hno as [Hc _]. exact Hc. }
    assert (Hi : index (c :: p) 0 = Ok c).
    { unfold index. rewrite len_cons. pose proof (len_nonneg p).
      replace (0 <? len p + 1) with true by (symmetry; apply Z.ltb_lt; lia).
      reflexivity. }
    rewrite Hi. cbn [bind]. fold (is_slash c). rewrite Hc.
    pose proof (len_nonneg (c :: p)).
    rewrite reslice_ok by lia. cbn [bind fst]. rewrite drop_0.
    unfold only_leading_slash. rewrite Hc. cbn [andb].
    unfold abbreviate_claimed. rewrite segments_no_slash by assumption.
    reflexivity.
  - destruct (last_slash a) as [Ha | (a' & s1 & Ha & Hs1)].
    + (* two segments *)
      unfold abbreviate. rewrite Hpath, range_app.
      rewrite (range_no_slash a) by assumption.
      cbn [abbreviate_range]. change (Byte.eqb "/" "/") with true. cbn [fst].
      rewrite range_no_slash by assumption.
      destruct a as [|c' a''].
      * (* the slash comes first *)
        cbn [app] in Hpath. injection Hpath as -> ->.
        change (len []) with 0. cbn [Z.add].
        change (index ("/"%byte :: s) 0) with
          (index ([] ++ "/"%byte :: s) (len [])).
        rewrite index_at_len. cbn [bind].
        change (Byte.eqb "/" "/") with true. cbn [app].
        rewrite len_cons. pose proof (len_nonneg s).
        rewrite reslice_ok by lia. cbn [bind fst].
        unfold only_leading_slash. rewrite is_slash_slash, Hs. reflexivity.
      * (* the slash comes later *)
        cbn [app] in Hpath. injection Hpath as <- ->.
        cbn [existsb] in Ha. apply orb_false_iff in Ha as [Hc Ha].
        assert (Hi : index ((c :: a'') ++ "/"%byte :: s) 0 = Ok c).
        { cbn [app]. unfold index. rewrite len_cons.
          pose proof (len_nonneg (a'' ++ "/"%byte :: s)).
          replace (0 <? len (a'' ++ "/"%byte :: s) + 1) with true
            by (symmetry; apply Z.ltb_lt; lia).
          reflexivity. }
        rewrite Hi. cbn [bind]. fold (is_slash c). rewrite Hc.
        pose proof (len_nonneg ((c :: a'') ++ "/"%byte :: s)).
        rewrite reslice_ok by lia. cbn [bind fst]. rewrite drop_0.
        unfold only_leading_slash. cbn [app]. rewrite Hc. cbn [andb].
        unfold abbreviate_claimed.
        change (c :: a'' ++ "/"%byte :: s) with ((c :: a'') ++ "/"%byte :: s).
        rewrite segments_app.
        rewrite (segments_no_slash (c :: a''))
          by (cbn [existsb]; rewrite Hc, Ha; reflexivity).
        rewrite (segments_no_slash s) by assumption.
        reflexivity.
    + (* three segments or more *)
      assert (Honly : only_leading_slash (c :: p) = false).
      { rewrite Hpath, Ha. destruct a' as [|c' a''].
        - cbn [app only_leading_slash]. rewrite is_slash_slash. cbn [andb].
          rewrite existsb_app. cbn [existsb]. rewrite is_slash_slash.
          rewrite orb_true_r. reflexivity.
        - cbn [app only_leading_slash]. rewrite !existsb_app.
          cbn [existsb]. rewrite is_slash_slash.
          rewrite orb_true_r, andb_false_r. reflexivity. }
      rewrite Honly.
      unfold abbreviate. rewrite Hpath, Ha.
      rewrite !range_app. cbn [abbreviate_range].
      change (Byte.eqb "/" "/") with true. cbn [fst].
      rewrite (range_no_slash s1) by assumption.
      cbn [abbreviate_range]. change (Byte.eqb "/" "/") with true. cbn [fst].
      rewrite range_no_slash by assumption.
      rewrite Z.add_0_l.
      rewrite <- app_assoc. cbn [app].
      rewrite index_at_len. cbn [bind]. change (Byte.eqb "/" "/") with true.
      pose proof (len_nonneg a') as Hla.
      pose proof (len_nonneg s1) as Hl1.
      pose proof (len_nonneg s) as Hl2.
      rewrite reslice_ok by (repeat rewrite ?len_app, ?len_cons; lia).
      cbn [bind fst]. rewrite drop_after.
      unfold abbreviate_claimed.
      rewrite segments_app, segments_app.
      rewrite (segments_no_slash s1), (segments_no_slash s) by assumption.
      change ([s1] ++ [s]) with [s1; s].
      rewrite last_two_app, length_app. cbn [List.length].
      replace (2 <=? List.length (segments a') + 2)%nat with true
        by (symmetry; apply Nat.leb_le; lia).
      reflexivity.
Qed.

Lemma abbreviate_empty : abbreviate [] = Panic.
Proof. reflexivity. Qed.

Lemma abbreviate_total (path : bytes) :
  path <> [] -> abbreviate path = Ok (abbreviated path).
Proof.
  destruct path as [|c p]; [contradiction|]. intros _.
  unfold abbreviated. rewrite abbreviate_cons. reflexivity.
Qed.

(** The result is the end of the path. *)
Lemma abbreviate_ok_suffix (path r : bytes) :
  abbreviate path = Ok r -> exists pre, path = pre ++ r.
Proof.
  unfold abbreviate.
  destruct (abbreviate_range path 0 (0, 0)) as [ls ps].
  destruct (index path ps) as [b|]; cbn [bind]; [|discriminate].
  destruct (reslice (len path) (if Byte.eqb b "/" then ps + 1 else ps)
              (len path)) as [w|]; cbn [bind]; [|discriminate].
  intros [= <-]. exists (take (fst w) path). symmetry; apply take_drop.
Qed.

Lemma abbreviate_suffix (c : byte) (p : bytes) :
  exists pre r, abbreviate (c :: p) = Ok r /\ c :: p = pre ++ r.
Proof.
  pose proof (abbreviate_cons c p) as H.
  destruct (abbreviate_ok_suffix _ _ H) as [pre Hpre].
  eexists pre, _. split; [exact H | exact Hpre].
Qed.

(** ** The call stack *)

Lemma skipn_nth_some {A} (l : list A) (i : nat) (x : A) :
  nth_error l i = Some x -> skipn i l = x :: skipn (S i) l.
Proof.
  revert i; induction l as [|a l IH]; intros [|i] H; cbn in H |- *;
    try discriminate.
  - injection H as ->. reflexivity.
  - apply IH; assumption.
Qed.

Lemma skipn_nth_none {A} (l : list A) (i : nat) :
  nth_error l i = None -> skipn i l = [].
Proof. intros H. apply skipn_all2, nth_error_None; assumption. Qed.

Lemma frame_fields_set_txt ev t lvl frs :
  frame_fields (set_txt ev t) lvl frs = frame_fields ev lvl frs.
Proof.
  revert lvl; induction frs as [|fr frs IH]; intros lvl; cbn [frame_fields].
  - reflexivity.
  - rewrite IH. reflexivity.
Qed.

Lemma set_txt_app ev a b :
  set_txt (set_txt ev (txt ev ++ a)) (txt (set_txt ev (txt ev ++ a)) ++ b)
  = set_txt ev (txt ev ++ a ++ b).
Proof. ev_simpl. rewrite app_assoc. reflexivity. Qed.

(** The loop, round by round: the frames it emits are the kept ones among
    those it visits, numbered from [lvl] on; it panics exactly when one
    of them has an empty file name. *)
Lemma callStackLoop_spec (stack : list Frame) (k : nat) :
  forall (n lvl : Z) (walo : bool) (ev : Event),
    0 <= n ->
    callStackLoop stack k n lvl walo (Some ev) =
    let kept :=
      filter (keep_frame ev)
             (firstn k (skipn (Z.to_nat (n + blammoLevels)) stack)) in
    if forallb has_file kept
    then Ok (Some (set_txt ev (txt ev ++ frame_fields ev lvl kept)),
             match kept with [] => walo | _ :: _ => true end)
    else Panic.
Proof.
  induction k as [|k IH]; intros n lvl walo ev Hn; cbn zeta.
  - cbn [callStackLoop firstn filter forallb frame_fields].
    rewrite app_nil_r, set_txt_same. reflexivity.
  - cbn [callStackLoop]. unfold runtime_Caller, blammoLevels in *.
    replace (n + 3 <? 0) with false by (symmetry; apply Z.ltb_ge; lia).
    destruct (nth_error stack (Z.to_nat (n + 3))) as [fr|] eqn:Hnth.
    + rewrite (skipn_nth_some _ _ _ Hnth). cbn [firstn filter].
      cbn [deref bind]. fold (keep_frame ev fr).
      replace (S (Z.to_nat (n + 3))) with (Z.to_nat (n + 1 + 3)) by lia.
      destruct (keep_frame ev fr) eqn:Hkeep.
      * cbn [forallb]. unfold has_file at 1.
        destruct (file fr) as [|c p] eqn:Hfile.
        -- reflexivity.
        -- rewrite abbreviate_total by discriminate. cbn [bind andb].
           rewrite Str_some, Int_some, field_bytes_set_txt, set_txt_app.
           rewrite IH by lia. cbn zeta.
           change (keep_frame (set_txt ev _)) with (keep_frame ev).
           destruct (forallb has_file
                       (filter (keep_frame ev)
                          (firstn k (skipn (Z.to_nat (n + 1 + 3)) stack))));
             [|reflexivity].
           rewrite frame_fields_set_txt, set_txt_app.
           cbn [frame_fields]. rewrite Hfile, <- !app_assoc.
           f_equal. f_equal.
           destruct (filter _ _); reflexivity.
      * rewrite IH by lia. reflexivity.
    + rewrite (skipn_nth_none _ _ Hnth).
      cbn [firstn filter forallb frame_fields].
      rewrite app_nil_r, set_txt_same. reflexivity.
Qed.

Lemma writeCallStack_spec (stack : list Frame) (ev : Event) (maxlevels : Z) :
  maxlevels <> 0 ->
  writeCallStack stack (Some ev) maxlevels =
  if forallb has_file (emitted_frames ev stack maxlevels)
  then Ok (Some (set_txt ev
         (txt ev ++
          match emitted_frames ev stack maxlevels with
          | [] => field_bytes ev (bs "@file_0") (bs "unavailable")
          | fr :: frs => frame_fields ev 48 (fr :: frs)
          end)))
  else Panic.
Proof.
  intros Hm. unfold writeCallStack.
  replace (maxlevels =? 0) with false by (symmetry; apply Z.eqb_neq; exact Hm).
  rewrite callStackLoop_spec by lia. cbn zeta.
  unfold emitted_frames, visited_frames.
  change (Z.to_nat (0 + blammoLevels)) with (Z.to_nat blammoLevels).
  destruct (forallb has_file _); [|reflexivity]. cbn [bind].
  destruct (filter _ _) as [|fr frs].
  - cbn [negb frame_fields]. rewrite app_nil_r, set_txt_same, Str_some.
    reflexivity.
  - reflexivity.
Qed.

(** With a depth of at least one, the walk appends the fallback field
    [@file_0=unavailable] and nothing else when no visited frame is kept
    (all are filtered out, or the stack ends first); otherwise it appends
    [@file_N] and [@line_N] for the kept frames only, [N] being the rune
    the loop holds, ['0'] for the first. *)
Theorem call_stack_fallback_and_numbering
    (stack : list Frame) (ev : Event) (maxlevels : Z) :
  1 <= maxlevels ->
  (emitted_frames ev stack maxlevels = [] ->
   writeCallStack stack (Some ev) maxlevels =
   Ok (Some (set_txt ev
     (txt ev ++ keyStart ev ++ bs "@file_0" ++ keyEnd ev
             ++ bs "=unavailable "))))
  /\
  (emitted_frames ev stack maxlevels <> [] ->
   forallb has_file (emitted_frames ev stack maxlevels) = true ->
   writeCallStack stack (Some ev) maxlevels =
   Ok (Some (set_txt ev
     (txt ev ++ frame_fields ev 48 (emitted_frames ev stack maxlevels))))).
Proof.
  intros Hm. split.
  - intros Hnone. rewrite writeCallStack_spec by lia. rewrite Hnone.
    reflexivity.
  - intros Hsome Hfiles. rewrite writeCallStack_spec by lia. rewrite Hfiles.
    destruct (emitted_frames ev stack maxlevels); [contradiction | reflexivity].
Qed.

(** The frames are numbered ['0'], ['1'], ... in the order they are kept. *)
Lemma frame_fields_numbering ev lvl fr frs :
  frame_fields ev lvl (fr :: frs) =
  field_bytes ev (bs "@file_" ++ string_of_rune lvl) (abbreviated (file fr))
  ++ field_bytes ev (bs "@line_" ++ string_of_rune lvl) (strconv_Itoa (line fr))
  ++ frame_fields ev (rune_succ lvl) frs.
Proof. reflexivity. Qed.

(** Whatever a walk appends, it appends. *)
Lemma writeCallStack_appends stack ev maxlevels r :
  writeCallStack stack (Some ev) maxlevels = Ok r ->
  exists sfx, r = Some (set_txt ev (txt ev ++ sfx)).
Proof.
  destruct (Z.eq_dec maxlevels 0) as [-> | Hm].
  - cbn. intros [= <-]. exists []. rewrite app_nil_r, set_txt_same. reflexivity.
  - rewrite writeCallStack_spec by assumption.
    destruct (forallb has_file _); [|discriminate].
    intros [= <-]. eexists. reflexivity.
Qed.

Lemma level_digit (i : nat) :
  (i < 10)%nat ->
  string_of_rune (Nat.iter i rune_succ 48) = strconv_FormatInt (Z.of_nat i).
Proof.
  intros H. do 10 (destruct i as [|i]; [reflexivity|]). lia.
Qed.

(** ** Finalizing an event *)

Lemma store_last (t : bytes) (b : byte) :
  t <> [] -> store t (len t - 1) b = Ok (removelast t ++ [b]).
Proof.
  intros Ht. unfold store.
  assert (Hl : 0 < len t).
  { pose proof (len_nonneg t). destruct (Z.eq_dec (len t) 0) as [E|E]; [|lia].
    apply len_nil_iff in E; contradiction. }
  replace (0 <=? len t - 1) with true by (symmetry; apply Z.leb_le; lia).
  replace (len t - 1 <? len t) with true by (symmetry; apply Z.ltb_lt; lia).
  cbn [andb]. rewrite drop_all by lia.
  rewrite removelast_firstn_len. unfold take, len.
  replace (Z.to_nat (Z.of_nat (List.length t) - 1))
    with (Init.Nat.pred (List.length t)) by lia.
  reflexivity.
Qed.

(** [Msg] on an event whose offset lies within its buffer: the message and
    a space go in at the offset, the last byte becomes a newline, the line
    is written once and the event goes back to the pool. *)
Lemma Msg_some (ev : Event) (msg : bytes) (wd : World) (o : Writer) :
  out ev = Some o ->
  0 <= msgpos ev <= len (txt ev) ->
  Msg (Some ev) msg wd =
  let line := end_line (take (msgpos ev) (txt ev) ++ (msg ++ bs " ")
                        ++ drop (msgpos ev) (txt ev)) in
  Ok (Some (set_txt ev line),
      eventPool_Put (set_txt ev line)
        (mkWorld (written wd ++ [(o, line)]) (pool wd) (now wd))).
Proof.
  intros Ho Hp. unfold Msg.
  rewrite splice_insert; [|assumption | destruct msg; discriminate].
  cbn [bind]. ev_simpl.
  rewrite store_last by (destruct (take (msgpos ev) (txt ev)), msg; discriminate).
  cbn [bind]. rewrite Ho. cbn [Write bind]. reflexivity.
Qed.

Lemma run_app (a b : list Call) (e : option Event) (wd : World) :
  run (a ++ b) e wd = '(e', wd') <- run a e wd ;; run b e' wd'.
Proof.
  revert e wd; induction a as [|c a IH]; intros e wd; cbn [app run].
  - reflexivity.
  - destruct (invoke c e wd) as [[e1 wd1]|]; cbn [bind]; [apply IH | reflexivity].
Qed.

Lemma fields_bytes_set_txt ev t fs :
  fields_bytes (set_txt ev t) fs = fields_bytes ev fs.
Proof. reflexivity. Qed.

(** The setters append their fields in the order of the calls. *)
Lemma run_fields (fs : list Field) :
  forall (ev : Event) (wd : World),
    run (map CField fs) (Some ev) wd =
    Ok (Some (set_txt ev (txt ev ++ fields_bytes ev fs)), wd).
Proof.
  induction fs as [|f fs IH]; intros ev wd; cbn [map run].
  - cbn [fields_bytes flat_map]. rewrite app_nil_r, set_txt_same. reflexivity.
  - cbn [invoke]. rewrite setField_some. cbn [bind].
    rewrite IH, fields_bytes_set_txt, set_txt_app. reflexivity.
Qed.

(** C2: on an event whose buffer is the prefix (offset at its end), any
    setters followed by [Msg M] write one line to the event's writer: the
    prefix, [M], a space, then the fields in the order of the calls, the
    last byte turned into a newline. *)
Theorem Msg_puts_message_before_fields
    (ev : Event) (fs : list Field) (M : bytes) (o : Writer) (wd : World) :
  out ev = Some o ->
  msgpos ev = len (txt ev) ->
  let line := end_line (txt ev ++ M ++ bs " " ++ fields_bytes ev fs) in
  run (map CField fs ++ [CMsg M]) (Some ev) wd =
  Ok (Some (set_txt ev line),
      eventPool_Put (set_txt ev line)
        (mkWorld (written wd ++ [(o, line)]) (pool wd) (now wd))).
Proof.
  intros Ho Hp line. rewrite run_app, run_fields. cbn [bind run invoke].
  pose proof (len_nonneg (txt ev)).
  rewrite (Msg_some _ _ _ o);
    [| exact Ho | ev_simpl; rewrite len_app; pose proof (len_nonneg (fields_bytes ev fs)); lia].
  cbn zeta. ev_simpl. rewrite Hp, take_app_len, drop_app_len.
  cbn [bind]. unfold line. rewrite <- app_assoc. reflexivity.
Qed.

(** The same for a buffer that already holds fields, whatever put them
    there. *)
Lemma Msg_after_fields (ev : Event) (prefix fields M : bytes) (o : Writer)
    (wd : World) :
  out ev = Some o -> txt ev = prefix ++ fields -> msgpos ev = len prefix ->
  exists ev' wd',
    Msg (Some ev) M wd = Ok (Some ev', wd') /\
    written wd' = written wd ++ [(o, end_line (prefix ++ M ++ bs " " ++ fields))].
Proof.
  intros Ho Ht Hp.
  pose proof (len_nonneg prefix). pose proof (len_nonneg fields).
  rewrite (Msg_some _ _ _ o); [| exact Ho | rewrite Ht, Hp, len_app; lia].
  cbn zeta. rewrite Ht, Hp, take_app_len, drop_app_len.
  eexists _, _. split; [reflexivity|]. cbn [eventPool_Put written].
  rewrite <- app_assoc. reflexivity.
Qed.

(** ** The offset of the message *)

Lemma newEvent_some (l : Logger) (o : Writer) (tg : bytes) (wd : World) :
  exists ev,
    fst (newEvent l (Some o) tg wd) = Some ev /\
    txt ev = timestamp_of l wd ++ tg /\
    msgpos ev = len (txt ev) /\
    out ev = Some o /\
    keyStart ev = KeyStart l /\ keyEnd ev = KeyEnd l /\
    callLevels ev = MaxCallLevels l /\ withSystem ev = IncludeSystemFiles l /\
    written (snd (newEvent l (Some o) tg wd)) = written wd.
Proof.
  unfold newEvent, timestamp_of, eventPool_Get.
  destruct (pool wd) as [|e0 rest];
    destruct (negb (len (Timestamp l) =? 0)); destruct (UTC l);
    cbv beta iota zeta delta
      [fst snd txt tag keyStart keyEnd msgpos callLevels withSystem out
       set_txt set_keyStart set_keyEnd set_msgpos set_callLevels
       set_withSystem set_out eventPool_New];
    (eexists; split; [reflexivity|]);
    cbv beta iota delta
      [txt tag keyStart keyEnd msgpos callLevels withSystem out];
    cbn [now written take firstn Z.to_nat app];
    repeat (split; [reflexivity|]); reflexivity.
Qed.

Lemma builder_appends (c : Call) (ev : Event) (wd : World) r wd' :
  is_builder c = true ->
  invoke c (Some ev) wd = Ok (r, wd') ->
  wd' = wd /\ exists sfx, r = Some (set_txt ev (txt ev ++ sfx)).
Proof.
  intros Hb. destruct c; cbn [is_builder] in Hb; try discriminate;
    cbn [invoke].
  - rewrite setField_some. cbn [bind]. intros [= <- <-].
    split; [reflexivity | eexists; reflexivity].
  - unfold Line. destruct (writeCallStack stack (Some ev) 1) as [r'|] eqn:E;
      cbn [bind]; [|discriminate].
    intros [= <- <-]. split; [reflexivity|].
    eapply writeCallStack_appends; exact E.
  - unfold Caller. destruct (writeCallStack stack (Some ev) 2) as [r'|] eqn:E;
      cbn [bind]; [|discriminate].
    intros [= <- <-]. split; [reflexivity|].
    eapply writeCallStack_appends; exact E.
  - unfold CallStack.
    destruct (writeCallStack stack (Some ev) (callLevels ev)) as [r'|] eqn:E;
      cbn [bind]; [|discriminate].
    intros [= <- <-]. split; [reflexivity|].
    eapply writeCallStack_appends; exact E.
Qed.

Lemma builders_append (cs : list Call) :
  forall (ev : Event) (wd : World) r wd',
    forallb is_builder cs = true ->
    run cs (Some ev) wd = Ok (r, wd') ->
    wd' = wd /\ exists sfx, r = Some (set_txt ev (txt ev ++ sfx)).
Proof.
  induction cs as [|c cs IH]; intros ev wd r wd' Hb; cbn [run].
  - intros [= <- <-]. split; [reflexivity|]. exists [].
    rewrite app_nil_r, set_txt_same. reflexivity.
  - cbn [forallb] in Hb. apply andb_true_iff in Hb as [Hc Hcs].
    destruct (invoke c (Some ev) wd) as [[r1 wd1]|] eqn:E; cbn [bind];
      [|discriminate].
    destruct (builder_appends _ _ _ _ _ Hc E) as [-> [sfx1 ->]].
    intros Hrun. destruct (IH _ _ _ _ Hcs Hrun) as [-> [sfx2 ->]].
    split; [reflexivity|]. exists (sfx1 ++ sfx2).
    rewrite set_txt_app. reflexivity.
Qed.

(** C9: the event [newEvent] makes holds the timestamp and the tag, with
    the offset at their end; after any chain of setters and caller or
    call-stack methods the offset is the same, the bytes before it are the
    same, and what was added stands after them. *)
Theorem msgpos_is_stable
    (l : Logger) (o : Writer) (tg : bytes) (wd : World) (cs : list Call)
    (r : option Event) (wd' : World) :
  forallb is_builder cs = true ->
  run cs (fst (newEvent l (Some o) tg wd)) (snd (newEvent l (Some o) tg wd))
  = Ok (r, wd') ->
  exists (ev ev' : Event) (added : bytes),
    fst (newEvent l (Some o) tg wd) = Some ev /\
    txt ev = timestamp_of l wd ++ tg /\
    msgpos ev = len (timestamp_of l wd ++ tg) /\
    r = Some ev' /\
    msgpos ev' = msgpos ev /\
    txt ev' = txt ev ++ added /\
    take (msgpos ev') (txt ev') = timestamp_of l wd ++ tg.
Proof.
  intros Hb Hrun.
  destruct (newEvent_some l o tg wd) as (ev & Hev & Htxt & Hpos & _).
  rewrite Hev in Hrun.
  destruct (builders_append _ _ _ _ _ Hb Hrun) as [_ [added ->]].
  exists ev, (set_txt ev (txt ev ++ added)), added. ev_simpl.
  repeat split; try assumption; try reflexivity.
  - rewrite Hpos, Htxt. reflexivity.
  - rewrite Hpos, take_app_len. exact Htxt.
Qed.

(** ** Numbers as text *)

Lemma to_int_not_nil (v : Z) :
  Z.to_int v <> Decimal.Pos Decimal.Nil /\ Z.to_int v <> Decimal.Neg Decimal.Nil.
Proof.
  destruct v as [|p|p]; cbn; split; try discriminate;
    intros [= H]; exact (Unsigned.to_uint_nonnil p H).
Qed.

Lemma FormatInt_read (v : Z) :
  NilZero.int_of_string (string_of_list_byte (strconv_FormatInt v))
  = Some (Z.to_int v).
Proof.
  unfold strconv_FormatInt. rewrite string_of_list_byte_of_string.
  destruct (to_int_not_nil v). apply NilZero.isi; assumption.
Qed.

Lemma FormatInt_ParseInt (v bitSize : Z) :
  - 2 ^ (bitSize - 1) <= v < 2 ^ (bitSize - 1) ->
  strconv_ParseInt (strconv_FormatInt v) bitSize = Some v.
Proof.
  intros H. unfold strconv_ParseInt. rewrite FormatInt_read, DecimalZ.of_to.
  replace (- 2 ^ (bitSize - 1) <=? v) with true by (symmetry; apply Z.leb_le; lia).
  replace (v <? 2 ^ (bitSize - 1)) with true by (symmetry; apply Z.ltb_lt; lia).
  reflexivity.
Qed.

Lemma FormatInt_ParseUint (v bitSize : Z) :
  0 <= v < 2 ^ bitSize ->
  strconv_ParseUint (strconv_FormatInt v) bitSize = Some v.
Proof.
  intros H. unfold strconv_ParseUint. rewrite FormatInt_read.
  destruct v as [|p|p]; [| |lia]; cbn [Z.to_int].
  - destruct (2 ^ bitSize) eqn:E; try lia. reflexivity.
  - change (Decimal.Pos (Pos.to_uint p)) with (Z.to_int (Z.pos p)).
    rewrite DecimalZ.of_to.
    replace (Z.pos p <? 2 ^ bitSize) with true by (symmetry; apply Z.ltb_lt; lia).
    reflexivity.
Qed.

Lemma int64_in_range (v : Z) : - 2 ^ 63 <= v < 2 ^ 63 -> int64 v = v.
Proof.
  intros H. unfold int64. rewrite Z.mod_small; lia.
Qed.

Lemma uint64_in_range (v : Z) : 0 <= v < 2 ^ 64 -> uint64 v = v.
Proof. intros H. unfold uint64. apply Z.mod_small; lia. Qed.

(** The integer setters: the text they render reads back as the value,
    at the width of the setter. *)
Lemma signed_fields_round_trip (k : bytes) (v : Z) :
  (- 2 ^ 63 <= v < 2 ^ 63 -> strconv_ParseInt (field_value (FInt k v)) 64 = Some v)
  /\ (- 2 ^ 7 <= v < 2 ^ 7 -> strconv_ParseInt (field_value (FInt8 k v)) 8 = Some v)
  /\ (- 2 ^ 15 <= v < 2 ^ 15 -> strconv_ParseInt (field_value (FInt16 k v)) 16 = Some v)
  /\ (- 2 ^ 31 <= v < 2 ^ 31 -> strconv_ParseInt (field_value (FInt32 k v)) 32 = Some v)
  /\ (- 2 ^ 63 <= v < 2 ^ 63 -> strconv_ParseInt (field_value (FInt64 k v)) 64 = Some v).
Proof.
  repeat split; intros H; cbn [field_value];
    rewrite int64_in_range by lia; apply FormatInt_ParseInt; cbn; lia.
Qed.

Lemma unsigned_fields_round_trip (k : bytes) (v : Z) :
  (0 <= v < 2 ^ 8 -> strconv_ParseUint (field_value (FUint8 k v)) 8 = Some v)
  /\ (0 <= v < 2 ^ 16 -> strconv_ParseUint (field_value (FUint16 k v)) 16 = Some v)
  /\ (0 <= v < 2 ^ 32 -> strconv_ParseUint (field_value (FUint32 k v)) 32 = Some v)
  /\ (0 <= v < 2 ^ 64 -> strconv_ParseUint (field_value (FUint64 k v)) 64 = Some v).
Proof.
  repeat split; intros H; cbn [field_value];
    rewrite uint64_in_range by lia; apply FormatInt_ParseUint; lia.
Qed.

(** [Float64] hands [strconv.AppendFloat] the bit size 32, so two
    [float64]s with the same nearest [float32] leave the same bytes. *)
Lemma Float64_through_float32 (e : option Event) (k : bytes) (x y : spec_float) :
  float32 x = float32 y -> Float64 e k x = Float64 e k y.
Proof.
  intros H. unfold Float64, strconv_AppendFloat. cbn [Z.eqb Pos.eqb].
  rewrite H. reflexivity.
Qed.

(** C5: 1 and 1 + 2^-52 are two different [float64] values, and [Float64]
    renders both to the same bytes, whatever the digit generator: the text
    of one of them cannot read back as the value it came from. *)
Theorem Float64_loses_precision :
  valid_binary 53 1024 f64_one = true
  /\ valid_binary 53 1024 f64_one_succ = true
  /\ SFcompare f64_one f64_one_succ = Some Lt
  /\ forall (e : option Event) (k : bytes),
       Float64 e k f64_one_succ = Float64 e k f64_one.
Proof.
  split; [vm_compute; reflexivity|].
  split; [vm_compute; reflexivity|].
  split; [vm_compute; reflexivity|].
  intros e k. apply Float64_through_float32. vm_compute. reflexivity.
Qed.

(** ** abbreviate: the claim and its limits *)

Lemma only_leading_slash_segments (path : bytes) :
  only_leading_slash path = true -> (2 <= List.length (segments path))%nat.
Proof.
  destruct path as [|c p]; cbn [only_leading_slash segments]; [discriminate|].
  intros H. apply andb_true_iff in H as [Hc _]. rewrite Hc.
  pose proof (segments_not_nil p). destruct (segments p); [contradiction|].
  cbn [List.length]. lia.
Qed.

(** C6, as the code has it: on a path that is not empty, [abbreviate]
    returns the last two segments joined by ['/'] when there are at least
    two and the path is not one whose only ['/'] comes first; it returns a
    path of one segment unchanged; and from a path whose only ['/'] comes
    first it returns what follows the ['/']. *)
Theorem abbreviate_last_two_segments (path : bytes) :
  path <> [] ->
  (only_leading_slash path = false ->
   (2 <= List.length (segments path))%nat ->
   abbreviate path = Ok (join_slash (last_two (segments path))))
  /\ (List.length (segments path) = 1%nat -> abbreviate path = Ok path)
  /\ (only_leading_slash path = true -> abbreviate path = Ok (tl path)).
Proof.
  intros Hne. destruct path as [|c p]; [contradiction|].
  pose proof (abbreviate_cons c p) as H. repeat split.
  - intros Honly Hlen. rewrite H, Honly. unfold abbreviate_claimed.
    apply Nat.leb_le in Hlen. rewrite Hlen. reflexivity.
  - intros Hlen. rewrite H.
    destruct (only_leading_slash (c :: p)) eqn:Honly.
    + apply only_leading_slash_segments in Honly. lia.
    + unfold abbreviate_claimed. rewrite Hlen. reflexivity.
  - intros Honly. rewrite H, Honly. reflexivity.
Qed.

(** ** abbreviate at the empty string, and the older [writeCaller] *)

Lemma Old_writeCaller_failed_lookup (stack : list Frame) (e : option Event)
    (n : Z) :
  snd (runtime_Caller stack n) = false -> Old.writeCaller stack e n = Panic.
Proof.
  unfold Old.writeCaller, runtime_Caller.
  destruct (n <? 0).
  - intros _. destruct (n =? 3); reflexivity.
  - destruct (nth_error stack (Z.to_nat n)); cbn [snd]; [discriminate|].
    intros _. destruct (n =? 3); reflexivity.
Qed.

(** C10: [abbreviate] panics on the empty string; on any other path it
    returns, and what it returns is the end of the path; the older
    [writeCaller] calls it with the empty file name of a failed
    [runtime.Caller] lookup, and panics. *)
Theorem abbreviate_is_partial (stack : list Frame) (e : option Event) (n : Z) :
  snd (runtime_Caller stack n) = false ->
  abbreviate [] = Panic
  /\ (forall (c : byte) (p : bytes),
        exists pre r, abbreviate (c :: p) = Ok r /\ c :: p = pre ++ r)
  /\ Old.writeCaller stack e n = Panic.
Proof.
  intros Hfail. repeat split.
  - apply abbreviate_suffix.
  - apply Old_writeCaller_failed_lookup; assumption.
Qed.

(** The public methods of the older variant, on a real event and a stack
    too short for the lookup. *)
Lemma Old_Line_short_stack (stack : list Frame) (ev : Event) :
  (List.length stack <= 3)%nat -> Old.Line stack (Some ev) = Panic.
Proof.
  intros H. unfold Old.Line. apply Old_writeCaller_failed_lookup.
  unfold runtime_Caller. cbn [Z.ltb Z.compare].
  replace (nth_error stack (Z.to_nat 3)) with (@None Frame); [reflexivity|].
  symmetry; apply nth_error_None. lia.
Qed.

(** * Further properties *)

(** ** splice: offsets outside the buffer *)

Lemma reslice_negative n lo hi : lo < 0 -> reslice n lo hi = Panic.
Proof.
  intros H. unfold reslice.
  replace (0 <=? lo) with false by (symmetry; apply Z.leb_gt; exact H).
  reflexivity.
Qed.

(** X2: an insertion offset below zero or beyond the end of the buffer
    makes [splice] panic, whatever is inserted. *)
Theorem splice_offset_out_of_range (B I : bytes) (P : Z) :
  P < 0 \/ len B < P -> splice B I P = Panic.
Proof.
  intros H. unfold splice. rewrite len_app.
  destruct H as [Hneg | Hbig].
  - destruct (reslice (len B + len I) (P + len I) (len B + len I));
      cbn [bind]; [|reflexivity].
    rewrite reslice_negative by exact Hneg. reflexivity.
  - rewrite reslice_panic by lia. reflexivity.
Qed.

(** ** Whole statements *)

Lemma fields_bytes_keys (ev ev' : Event) (fs : list Field) :
  keyStart ev = keyStart ev' -> keyEnd ev = keyEnd ev' ->
  fields_bytes ev fs = fields_bytes ev' fs.
Proof.
  intros Hs He. unfold fields_bytes, field_bytes. rewrite Hs, He. reflexivity.
Qed.

Lemma newEvent_now (l : Logger) (w : option Writer) (tg : bytes) (wd : World) :
  now (snd (newEvent l w tg wd)) = now wd.
Proof.
  unfold newEvent, eventPool_Get. destruct w; [|reflexivity].
  destruct (pool wd); reflexivity.
Qed.

(** A statement on an enabled severity returns, and writes its line. *)
Lemma statement_writes (l : Logger) (o : Writer) (tg : bytes)
    (fs : list Field) (M : bytes) (wd : World) :
  exists ev' wd',
    statement l (Some o) tg fs M wd = Ok (Some ev', wd')
    /\ written wd' = written wd ++ [(o, line_of l tg fs M wd)]
    /\ now wd' = now wd.
Proof.
  destruct (newEvent_some l o tg wd)
    as (ev & Hev & Htxt & Hpos & Hout & Hks & Hke & _ & _ & Hwr).
  pose proof (newEvent_now l (Some o) tg wd) as Hnow.
  unfold statement. rewrite Hev.
  rewrite run_app, run_fields. cbn [bind run invoke].
  pose proof (len_nonneg (txt ev)) as Hl.
  pose proof (len_nonneg (fields_bytes ev fs)) as Hf.
  rewrite (Msg_some _ _ _ o);
    [| exact Hout
     | ev_simpl; rewrite len_app; lia].
  cbn zeta. ev_simpl. rewrite Hpos, take_app_len, drop_app_len. cbn [bind].
  eexists _, _. split; [reflexivity|].
  cbn [eventPool_Put written now]. rewrite Hwr, Hnow.
  split; [|reflexivity].
  unfold line_of, logger_fields. rewrite Htxt.
  rewrite (fields_bytes_keys ev
             (mkEvent [] [] (KeyStart l) (KeyEnd l) 0 0 false None) fs)
    by assumption.
  repeat rewrite <- app_assoc. reflexivity.
Qed.

Lemma statement_written (l : Logger) (o : Writer) (tg : bytes)
    (fs : list Field) (M : bytes) (wd : World) :
  written_after (statement l (Some o) tg fs M wd)
  = Some (written wd ++ [(o, line_of l tg fs M wd)]).
Proof.
  destruct (statement_writes l o tg fs M wd) as (ev' & wd' & -> & Hw & _).
  cbn [written_after]. rewrite Hw. reflexivity.
Qed.

(** X3: each severity whose writer is set writes the line of the
    statement, made of the timestamp, that severity's tag, the message and
    the fields, once, to that severity's writer: [Debug] to [DebugWriter],
    [Info] to [InfoWriter], [Warn] and [Error] both to [ErrorWriter]. *)
Theorem severity_routes_line
    (l : Logger) (o : Writer) (fs : list Field) (M : bytes) (wd : World) :
  (DebugWriter l = Some o ->
   written_after (run (map CField fs ++ [CMsg M])
                      (fst (Debug l wd)) (snd (Debug l wd)))
   = Some (written wd ++ [(o, line_of l (DebugTag l) fs M wd)]))
  /\ (InfoWriter l = Some o ->
   written_after (run (map CField fs ++ [CMsg M])
                      (fst (Info l wd)) (snd (Info l wd)))
   = Some (written wd ++ [(o, line_of l (InfoTag l) fs M wd)]))
  /\ (ErrorWriter l = Some o ->
   written_after (run (map CField fs ++ [CMsg M])
                      (fst (Warn l wd)) (snd (Warn l wd)))
   = Some (written wd ++ [(o, line_of l (WarnTag l) fs M wd)]))
  /\ (ErrorWriter l = Some o ->
   written_after (run (map CField fs ++ [CMsg M])
                      (fst (Error l wd)) (snd (Error l wd)))
   = Some (written wd ++ [(o, line_of l (ErrorTag l) fs M wd)])).
Proof.
  unfold Debug, Info, Warn, Error.
  repeat split; intros Hw; rewrite Hw; apply statement_written.
Qed.

(** X4: two statements in a row write their two lines in order, and the
    second line is what it would be in a fresh process: the event the
    first statement returned to the pool brings nothing of the first line
    into the second. *)
Theorem statements_compose
    (l1 l2 : Logger) (o1 o2 : Writer) (tg1 tg2 : bytes)
    (fs1 fs2 : list Field) (M1 M2 : bytes) (wd : World) :
  exists e1 wd1 e2 wd2,
    statement l1 (Some o1) tg1 fs1 M1 wd = Ok (e1, wd1)
    /\ statement l2 (Some o2) tg2 fs2 M2 wd1 = Ok (e2, wd2)
    /\ written wd2 = written wd ++ [(o1, line_of l1 tg1 fs1 M1 wd);
                                    (o2, line_of l2 tg2 fs2 M2 wd)].
Proof.
  destruct (statement_writes l1 o1 tg1 fs1 M1 wd) as (e1 & wd1 & H1 & Hw1 & Hn1).
  destruct (statement_writes l2 o2 tg2 fs2 M2 wd1) as (e2 & wd2 & H2 & Hw2 & Hn2).
  exists (Some e1), wd1, (Some e2), wd2.
  split; [exact H1|]. split; [exact H2|].
  rewrite Hw2, Hw1, <- app_assoc. cbn [app].
  unfold line_of, timestamp_of. rewrite Hn1. reflexivity.
Qed.

(** ** Statements with caller methods *)

Lemma In_firstn {A} (n : nat) (l : list A) (x : A) :
  In x (firstn n l) -> In x l.
Proof.
  intros H. rewrite <- (firstn_skipn n l). apply in_or_app. left; exact H.
Qed.

Lemma In_skipn {A} (n : nat) (l : list A) (x : A) :
  In x (skipn n l) -> In x l.
Proof.
  intros H. rewrite <- (firstn_skipn n l). apply in_or_app. right; exact H.
Qed.

Lemma emitted_frames_named (ev : Event) (stack : list Frame) (maxlevels : Z) :
  forallb has_file stack = true ->
  forallb has_file (emitted_frames ev stack maxlevels) = true.
Proof.
  intros H. apply forallb_forall. intros fr Hin.
  unfold emitted_frames, visited_frames in Hin.
  apply filter_In in Hin as [Hin _].
  apply In_firstn, In_skipn in Hin.
  exact (proj1 (forallb_forall _ _) H fr Hin).
Qed.

Lemma writeCallStack_returns (stack : list Frame) (ev : Event) (maxlevels : Z) :
  forallb has_file stack = true ->
  exists sfx,
    writeCallStack stack (Some ev) maxlevels
    = Ok (Some (set_txt ev (txt ev ++ sfx))).
Proof.
  intros H. destruct (Z.eq_dec maxlevels 0) as [-> | Hm].
  - exists []. rewrite app_nil_r, set_txt_same. reflexivity.
  - rewrite writeCallStack_spec by exact Hm.
    rewrite emitted_frames_named by exact H. eexists. reflexivity.
Qed.

Lemma builder_returns (c : Call) (ev : Event) (wd : World) :
  is_builder c = true -> named_stack c = true ->
  exists sfx, invoke c (Some ev) wd = Ok (Some (set_txt ev (txt ev ++ sfx)), wd).
Proof.
  intros Hb Hn. destruct c; cbn [is_builder] in Hb; try discriminate;
    cbn [named_stack] in Hn; cbn [invoke].
  - rewrite setField_some. eexists. reflexivity.
  - unfold Line. destruct (writeCallStack_returns stack ev 1 Hn) as [sfx ->].
    exists sfx. reflexivity.
  - unfold Caller. destruct (writeCallStack_returns stack ev 2 Hn) as [sfx ->].
    exists sfx. reflexivity.
  - unfold CallStack.
    destruct (writeCallStack_returns stack ev (callLevels ev) Hn) as [sfx ->].
    exists sfx. reflexivity.
Qed.

Lemma builders_return (cs : list Call) :
  forall (ev : Event) (wd : World),
    forallb is_builder cs = true -> forallb named_stack cs = true ->
    exists added,
      run cs (Some ev) wd = Ok (Some (set_txt ev (txt ev ++ added)), wd).
Proof.
  induction cs as [|c cs IH]; intros ev wd Hb Hn; cbn [run].
  - exists []. rewrite app_nil_r, set_txt_same. reflexivity.
  - cbn [forallb] in Hb, Hn.
    apply andb_true_iff in Hb as [Hc Hcs]. apply andb_true_iff in Hn as [Hnc Hncs].
    destruct (builder_returns c ev wd Hc Hnc) as [sfx1 ->]. cbn [bind].
    destruct (IH (set_txt ev (txt ev ++ sfx1)) wd Hcs Hncs) as [sfx2 ->].
    exists (sfx1 ++ sfx2). rewrite set_txt_app. reflexivity.
Qed.

Lemma walk_bytes_set_txt (ev : Event) (t : bytes) (stack : list Frame)
    (maxlevels : Z) :
  walk_bytes (set_txt ev t) stack maxlevels = walk_bytes ev stack maxlevels.
Proof.
  unfold walk_bytes. destruct (maxlevels =? 0); [reflexivity|].
  change (emitted_frames (set_txt ev t) stack maxlevels)
    with (emitted_frames ev stack maxlevels).
  destruct (emitted_frames ev stack maxlevels); [reflexivity|].
  apply frame_fields_set_txt.
Qed.

Lemma call_bytes_set_txt (ev : Event) (t : bytes) (c : Call) :
  call_bytes (set_txt ev t) c = call_bytes ev c.
Proof.
  destruct c; cbn [call_bytes]; try reflexivity; apply walk_bytes_set_txt.
Qed.

Lemma chain_bytes_set_txt (ev : Event) (t : bytes) (cs : list Call) :
  chain_bytes (set_txt ev t) cs = chain_bytes ev cs.
Proof.
  unfold chain_bytes. induction cs as [|c cs IH]; cbn [flat_map]; [reflexivity|].
  rewrite call_bytes_set_txt, IH. reflexivity.
Qed.

Lemma writeCallStack_bytes (stack : list Frame) (ev : Event) (maxlevels : Z) :
  forallb has_file stack = true ->
  writeCallStack stack (Some ev) maxlevels
  = Ok (Some (set_txt ev (txt ev ++ walk_bytes ev stack maxlevels))).
Proof.
  intros H. unfold walk_bytes. destruct (Z.eq_dec maxlevels 0) as [-> | Hm].
  - cbn [Z.eqb]. rewrite app_nil_r, set_txt_same. reflexivity.
  - replace (maxlevels =? 0) with false by (symmetry; apply Z.eqb_neq; exact Hm).
    rewrite writeCallStack_spec by exact Hm.
    rewrite emitted_frames_named by exact H. reflexivity.
Qed.

Lemma builder_bytes (c : Call) (ev : Event) (wd : World) :
  is_builder c = true -> named_stack c = true ->
  invoke c (Some ev) wd = Ok (Some (set_txt ev (txt ev ++ call_bytes ev c)), wd).
Proof.
  intros Hb Hn. destruct c; cbn [is_builder] in Hb; try discriminate;
    cbn [named_stack] in Hn; cbn [invoke call_bytes].
  - rewrite setField_some. reflexivity.
  - unfold Line. rewrite writeCallStack_bytes by exact Hn. reflexivity.
  - unfold Caller. rewrite writeCallStack_bytes by exact Hn. reflexivity.
  - unfold CallStack. rewrite writeCallStack_bytes by exact Hn. reflexivity.
Qed.

Lemma builders_bytes (cs : list Call) :
  forall (ev : Event) (wd : World),
    forallb is_builder cs = true -> forallb named_stack cs = true ->
    run cs (Some ev) wd
    = Ok (Some (set_txt ev (txt ev ++ chain_bytes ev cs)), wd).
Proof.
  induction cs as [|c cs IH]; intros ev wd Hb Hn; cbn [run].
  - unfold chain_bytes. cbn [flat_map].
    rewrite app_nil_r, set_txt_same. reflexivity.
  - cbn [forallb] in Hb, Hn.
    apply andb_true_iff in Hb as [Hc Hcs]. apply andb_true_iff in Hn as [Hnc Hncs].
    rewrite (builder_bytes c ev wd Hc Hnc). cbn [bind].
    rewrite (IH _ wd Hcs Hncs), chain_bytes_set_txt, set_txt_app.
    reflexivity.
Qed.

(** X5: on a fresh event, any chain of setters and caller methods
    returns, writes nothing, and leaves in the buffer what each call
    appends, in the order of the calls: a setter its field, a caller
    method the fields of the frames it keeps or the fallback field (and
    nothing at a limit of zero).  [Msg] after the chain hands the writer
    exactly one line: the prefix, the message and a space, then those
    bytes, ending in a newline.  The stacks the caller methods see must
    name a file in every frame. *)
Theorem one_write_per_statement
    (cs : list Call) (ev : Event) (M : bytes) (o : Writer) (wd : World) :
  forallb is_builder cs = true ->
  forallb named_stack cs = true ->
  out ev = Some o ->
  msgpos ev = len (txt ev) ->
  run cs (Some ev) wd = Ok (Some (set_txt ev (txt ev ++ chain_bytes ev cs)), wd)
  /\ written_after (run (cs ++ [CMsg M]) (Some ev) wd)
     = Some (written wd ++
             [(o, end_line (txt ev ++ M ++ bs " " ++ chain_bytes ev cs))]).
Proof.
  intros Hb Hn Ho Hp.
  pose proof (builders_bytes cs ev wd Hb Hn) as Hrun.
  split; [exact Hrun|].
  rewrite run_app, Hrun. cbn [bind run invoke].
  pose proof (len_nonneg (txt ev)) as Hl.
  pose proof (len_nonneg (chain_bytes ev cs)) as Ha.
  rewrite (Msg_some _ _ _ o);
    [| exact Ho | ev_simpl; rewrite len_app; lia].
  cbn zeta. ev_simpl. rewrite Hp, take_app_len, drop_app_len.
  cbn [bind written_after eventPool_Put written].
  repeat rewrite <- app_assoc. reflexivity.
Qed.

(** ** Values that read back *)

Lemma IntN_some (ev : Event) (k : bytes) (v : Z) :
  IntN (Some ev) k v
  = Some (set_txt ev (txt ev ++ field_bytes ev k (strconv_FormatInt (int64 v)))).
Proof. unfold IntN, strconv_AppendInt. rewrite append_value. reflexivity. Qed.

Lemma UintN_some (ev : Event) (k : bytes) (v : Z) :
  UintN (Some ev) k v
  = Some (set_txt ev (txt ev ++ field_bytes ev k (strconv_FormatInt (uint64 v)))).
Proof. unfold UintN, strconv_AppendUint. rewrite append_value. reflexivity. Qed.

(** X6: the signed setters ([int] being 64 bits wide): the field they
    append carries a text that [strconv.ParseInt] reads back, at the
    setter's width, as the value given. *)
Theorem signed_setters_round_trip (ev : Event) (k : bytes) (v : Z) :
  (- 2 ^ 63 <= v < 2 ^ 63 ->
   exists V, Int (Some ev) k v = Some (set_txt ev (txt ev ++ field_bytes ev k V))
             /\ strconv_ParseInt V 64 = Some v)
  /\ (- 2 ^ 7 <= v < 2 ^ 7 ->
   exists V, Int8 (Some ev) k v = Some (set_txt ev (txt ev ++ field_bytes ev k V))
             /\ strconv_ParseInt V 8 = Some v)
  /\ (- 2 ^ 15 <= v < 2 ^ 15 ->
   exists V, Int16 (Some ev) k v = Some (set_txt ev (txt ev ++ field_bytes ev k V))
             /\ strconv_ParseInt V 16 = Some v)
  /\ (- 2 ^ 31 <= v < 2 ^ 31 ->
   exists V, Int32 (Some ev) k v = Some (set_txt ev (txt ev ++ field_bytes ev k V))
             /\ strconv_ParseInt V 32 = Some v)
  /\ (- 2 ^ 63 <= v < 2 ^ 63 ->
   exists V, Int64 (Some ev) k v = Some (set_txt ev (txt ev ++ field_bytes ev k V))
             /\ strconv_ParseInt V 64 = Some v).
Proof.
  unfold Int8, Int16, Int32, Int64.
  repeat split; intros H; exists (strconv_FormatInt v);
    (split; [| apply FormatInt_ParseInt; cbn; lia]);
    rewrite ?Int_some, ?IntN_some; unfold strconv_Itoa;
    rewrite int64_in_range by lia; reflexivity.
Qed.

(** X7: the unsigned setters, likewise with [strconv.ParseUint]. *)
Theorem unsigned_setters_round_trip (ev : Event) (k : bytes) (v : Z) :
  (0 <= v < 2 ^ 8 ->
   exists V, Uint8 (Some ev) k v = Some (set_txt ev (txt ev ++ field_bytes ev k V))
             /\ strconv_ParseUint V 8 = Some v)
  /\ (0 <= v < 2 ^ 16 ->
   exists V, Uint16 (Some ev) k v = Some (set_txt ev (txt ev ++ field_bytes ev k V))
             /\ strconv_ParseUint V 16 = Some v)
  /\ (0 <= v < 2 ^ 32 ->
   exists V, Uint32 (Some ev) k v = Some (set_txt ev (txt ev ++ field_bytes ev k V))
             /\ strconv_ParseUint V 32 = Some v)
  /\ (0 <= v < 2 ^ 64 ->
   exists V, Uint64 (Some ev) k v = Some (set_txt ev (txt ev ++ field_bytes ev k V))
             /\ strconv_ParseUint V 64 = Some v).
Proof.
  unfold Uint8, Uint16, Uint32, Uint64.
  repeat split; intros H; exists (strconv_FormatInt v);
    (split; [| apply FormatInt_ParseUint; lia]);
    rewrite UintN_some, uint64_in_range by lia; reflexivity.
Qed.

Lemma hex_decode_byte (b : byte) (rest : bytes) :
  hex_DecodeString (hexdigit (Byte.to_N b / 16) :: hexdigit (Byte.to_N b mod 16)
                    :: rest)
  = match hex_DecodeString rest with
    | Some r => Some (b :: r)
    | None => None
    end.
Proof.
  cbn [hex_DecodeString].
  assert (H : fromHexChar (hexdigit (Byte.to_N b / 16)) = Some (Byte.to_N b / 16)%N
              /\ fromHexChar (hexdigit (Byte.to_N b mod 16))
                 = Some (Byte.to_N b mod 16)%N
              /\ Byte.of_N (Byte.to_N b / 16 * 16 + Byte.to_N b mod 16) = Some b).
  { destruct b; vm_compute; repeat split. }
  destruct H as (H1 & H2 & H3). rewrite H1, H2.
  destruct (hex_DecodeString rest); [|reflexivity].
  rewrite H3. reflexivity.
Qed.

Lemma hex_round_trip (v : bytes) :
  hex_DecodeString (hex_EncodeToString v) = Some v.
Proof.
  induction v as [|b v IH]; [reflexivity|].
  unfold hex_EncodeToString. cbn [flat_map app].
  fold (hex_EncodeToString v). rewrite hex_decode_byte, IH. reflexivity.
Qed.

Lemma hex_length (v : bytes) : len (hex_EncodeToString v) = 2 * len v.
Proof.
  induction v as [|b v IH]; [reflexivity|].
  unfold hex_EncodeToString. cbn [flat_map app].
  fold (hex_EncodeToString v). rewrite !len_cons, IH. lia.
Qed.

(** X8: the field [Bytes] appends carries two hexadecimal digits for each
    byte of the value, and [hex.DecodeString] reads them back as the
    value. *)
Theorem Bytes_round_trip (ev : Event) (k v : bytes) :
  exists V,
    Bytes (Some ev) k v = Some (set_txt ev (txt ev ++ field_bytes ev k V))
    /\ len V = 2 * len v
    /\ hex_DecodeString V = Some v.
Proof.
  exists (hex_EncodeToString v). unfold Bytes. rewrite Str_some.
  split; [reflexivity|]. split; [apply hex_length | apply hex_round_trip].
Qed.

(** ** abbreviate: what is kept *)

Lemma filter_no_slash (s : bytes) :
  existsb is_slash s = false -> filter is_slash s = [].
Proof.
  induction s as [|c s IH]; intros H; cbn [filter]; [reflexivity|].
  cbn [existsb] in H. apply orb_false_iff in H as [Hc Hs].
  rewrite Hc. apply IH; exact Hs.
Qed.

(** The three shapes of a result. *)
Lemma abbreviate_shape (c : byte) (p : bytes) :
  exists r,
    abbreviate (c :: p) = Ok r /\
    ((r = c :: p /\ existsb is_slash r = false)
     \/ (c = "/"%byte /\ r = p /\ existsb is_slash p = false)
     \/ (exists pre s1 s2,
           c :: p = pre ++ s1 ++ "/"%byte :: s2
           /\ existsb is_slash s1 = false /\ existsb is_slash s2 = false
           /\ r = s1 ++ "/"%byte :: s2)).
Proof.
  eexists. split; [apply abbreviate_cons|].
  destruct (last_slash (c :: p)) as [Hno | (a & s & Hpath & Hs)].
  - left. assert (Hc : is_slash c = false).
    { cbn [existsb] in Hno. apply orb_false_iff in Hno.
      destruct Hno as [Hc _]. exact Hc. }
    unfold only_leading_slash. rewrite Hc. cbn [andb].
    unfold abbreviate_claimed. rewrite segments_no_slash by exact Hno.
    cbn [List.length Nat.leb]. split; [reflexivity | exact Hno].
  - destruct (last_slash a) as [Ha | (a' & s1 & Ha & Hs1)].
    + destruct a as [|c' a''].
      * right; left. cbn [app] in Hpath. injection Hpath as -> ->.
        unfold only_leading_slash. rewrite is_slash_slash, Hs. cbn [andb negb].
        repeat split; try exact Hs.
      * right; right. cbn [app] in Hpath. injection Hpath as <- ->.
        cbn [existsb] in Ha. apply orb_false_iff in Ha as [Hc Ha].
        unfold only_leading_slash. rewrite Hc. cbn [andb].
        unfold abbreviate_claimed.
        change (c :: a'' ++ "/"%byte :: s) with ((c :: a'') ++ "/"%byte :: s).
        rewrite segments_app.
        rewrite (segments_no_slash (c :: a''))
          by (cbn [existsb]; rewrite Hc, Ha; reflexivity).
        rewrite (segments_no_slash s) by exact Hs.
        cbn [app List.length Nat.leb last_two Nat.sub skipn join_slash].
        exists [], (c :: a''), s. repeat split; try assumption.
        cbn [existsb]. rewrite Hc, Ha. reflexivity.
    + right; right.
      assert (Honly : only_leading_slash (c :: p) = false).
      { rewrite Hpath, Ha. destruct a' as [|c' a''].
        - cbn [app only_leading_slash]. rewrite is_slash_slash. cbn [andb].
          rewrite existsb_app. cbn [existsb]. rewrite is_slash_slash.
          rewrite orb_true_r. reflexivity.
        - cbn [app only_leading_slash]. rewrite !existsb_app.
          cbn [existsb]. rewrite is_slash_slash.
          rewrite orb_true_r, andb_false_r. reflexivity. }
      rewrite Honly. unfold abbreviate_claimed.
      rewrite Hpath, Ha, <- app_assoc. cbn [app].
      rewrite segments_app, segments_app.
      rewrite (segments_no_slash s1), (segments_no_slash s) by assumption.
      change ([s1] ++ [s]) with [s1; s].
      rewrite last_two_app, length_app. cbn [List.length].
      replace (2 <=? List.length (segments a') + 2)%nat with true
        by (symmetry; apply Nat.leb_le; lia).
      cbn [join_slash].
      exists (a' ++ ["/"%byte]), s1, s. repeat split; try assumption.
      rewrite <- !app_assoc. reflexivity.
Qed.

(** X9: on a path that is not empty [abbreviate] returns a text with at
    most one ['/'], and the last segment of that text is the last segment
    of the path: the file name is never cut. *)
Theorem abbreviate_keeps_file_name (c : byte) (p : bytes) :
  exists r,
    abbreviate (c :: p) = Ok r
    /\ (List.length (filter is_slash r) <= 1)%nat
    /\ last (segments r) [] = last (segments (c :: p)) [].
Proof.
  destruct (abbreviate_shape c p)
    as (r & Hr & [[-> Hno] | [(-> & -> & Hno) | (pre & s1 & s2 & Hp & H1 & H2 & ->)]]).
  - exists (c :: p). split; [exact Hr|].
    rewrite filter_no_slash by exact Hno. split; [cbn; lia | reflexivity].
  - exists p. split; [exact Hr|].
    rewrite filter_no_slash by exact Hno. split; [cbn; lia|].
    cbn [segments]. rewrite is_slash_slash.
    rewrite segments_no_slash by exact Hno. reflexivity.
  - exists (s1 ++ "/"%byte :: s2). split; [exact Hr|]. split.
    + rewrite filter_app. cbn [filter]. rewrite is_slash_slash.
      rewrite !filter_no_slash by assumption. cbn. lia.
    + rewrite Hp, app_assoc, !segments_app.
      rewrite (segments_no_slash s2) by exact H2.
      rewrite !last_last. reflexivity.
Qed.

(** ** The caller methods, frame by frame *)

Lemma walk_one (stack : list Frame) (ev : Event) :
  writeCallStack stack (Some ev) 1 =
  match nth_error stack 3 with
  | Some fr =>
      if keep_frame ev fr then
        if has_file fr
        then Ok (Some (set_txt ev (txt ev ++ frame_pair ev 48 fr)))
        else Panic
      else Ok (Some (set_txt ev (txt ev ++ fallback_field ev)))
  | None => Ok (Some (set_txt ev (txt ev ++ fallback_field ev)))
  end.
Proof.
  rewrite writeCallStack_spec by discriminate.
  unfold emitted_frames, visited_frames, blammoLevels.
  change (Z.to_nat 1) with 1%nat. change (Z.to_nat 3) with 3%nat.
  destruct (nth_error stack 3) as [fr|] eqn:Hnth.
  - rewrite (skipn_nth_some _ _ _ Hnth). cbn [firstn filter].
    destruct (keep_frame ev fr); [|reflexivity].
    cbn [forallb]. destruct (has_file fr); [|reflexivity].
    cbn [andb frame_fields]. unfold frame_pair.
    rewrite ?app_nil_r. repeat rewrite <- app_assoc. reflexivity.
  - rewrite (skipn_nth_none _ _ Hnth). reflexivity.
Qed.

Lemma walk_two (stack : list Frame) (ev : Event) (fr3 : Frame) :
  nth_error stack 3 = Some fr3 ->
  keep_frame ev fr3 = true -> has_file fr3 = true ->
  writeCallStack stack (Some ev) 2 =
  match nth_error stack 4 with
  | Some fr4 =>
      if keep_frame ev fr4 then
        if has_file fr4
        then Ok (Some (set_txt ev
               (txt ev ++ frame_pair ev 48 fr3 ++ frame_pair ev 49 fr4)))
        else Panic
      else Ok (Some (set_txt ev (txt ev ++ frame_pair ev 48 fr3)))
  | None => Ok (Some (set_txt ev (txt ev ++ frame_pair ev 48 fr3)))
  end.
Proof.
  intros Hnth Hkeep Hfile.
  rewrite writeCallStack_spec by discriminate.
  unfold emitted_frames, visited_frames, blammoLevels.
  change (Z.to_nat 2) with 2%nat. change (Z.to_nat 3) with 3%nat.
  rewrite (skipn_nth_some _ _ _ Hnth).
  destruct (nth_error stack 4) as [fr4|] eqn:Hnth4.
  - rewrite (skipn_nth_some _ _ _ Hnth4). cbn [firstn filter].
    rewrite Hkeep. destruct (keep_frame ev fr4).
    + cbn [forallb]. rewrite Hfile. destruct (has_file fr4); [|reflexivity].
      cbn [andb frame_fields]. unfold frame_pair.
      change (rune_succ 48) with 49.
      rewrite ?app_nil_r. repeat rewrite <- app_assoc. reflexivity.
    + cbn [forallb]. rewrite Hfile. cbn [andb frame_fields]. unfold frame_pair.
      rewrite ?app_nil_r. repeat rewrite <- app_assoc. reflexivity.
  - rewrite (skipn_nth_none _ _ Hnth4). cbn [firstn filter].
    rewrite Hkeep. cbn [forallb]. rewrite Hfile.
    cbn [andb frame_fields]. unfold frame_pair.
    rewrite ?app_nil_r. repeat rewrite <- app_assoc. reflexivity.
Qed.

(** X10: [CallStack] on an event whose call-level limit is zero leaves
    the event as it is; with a limit below zero the test [maxlevels == 0]
    does not stop it, the loop runs no round, and the fallback field
    [@file_0=unavailable] is appended. *)
Theorem CallStack_without_levels (stack : list Frame) (ev : Event) :
  callLevels ev <= 0 ->
  CallStack stack (Some ev) =
  Ok (Some (if callLevels ev =? 0 then ev
            else set_txt ev (txt ev ++ keyStart ev ++ bs "@file_0" ++ keyEnd ev
                                     ++ bs "=unavailable "))).
Proof.
  intros H. unfold CallStack.
  destruct (Z.eq_dec (callLevels ev) 0) as [E | E].
  - rewrite E. reflexivity.
  - replace (callLevels ev =? 0) with false by (symmetry; apply Z.eqb_neq; exact E).
    rewrite writeCallStack_spec by exact E.
    unfold emitted_frames, visited_frames.
    replace (Z.to_nat (callLevels ev)) with 0%nat by lia.
    reflexivity.
Qed.

(** X11: [Line] looks at one frame, the fourth of the stack
    [runtime.Caller] sees (three above [writeCallStack] itself).  If the
    frame is there and is kept, [Line] appends its [@file_0] and
    [@line_0]; if the stack is shorter or the frame is filtered out, it
    appends the fallback field; a kept frame without a file name makes it
    panic. *)
Theorem Line_reports_one_frame (stack : list Frame) (ev : Event) :
  Line stack (Some ev) =
  match nth_error stack 3 with
  | Some fr =>
      if keep_frame ev fr then
        if has_file fr
        then Ok (Some (set_txt ev
               (txt ev
                ++ field_bytes ev (bs "@file_0") (abbreviated (file fr))
                ++ field_bytes ev (bs "@line_0") (strconv_Itoa (line fr)))))
        else Panic
      else Ok (Some (set_txt ev
             (txt ev ++ field_bytes ev (bs "@file_0") (bs "unavailable"))))
  | None => Ok (Some (set_txt ev
             (txt ev ++ field_bytes ev (bs "@file_0") (bs "unavailable"))))
  end.
Proof. unfold Line. apply walk_one. Qed.

(** X12: when the frame [Line] reports is there and kept, [Caller]
    appends what [Line] appends and then, if the next frame up is there
    and kept, that frame's [@file_1] and [@line_1]. *)
Theorem Caller_extends_Line (stack : list Frame) (ev : Event) (fr3 : Frame) :
  nth_error stack 3 = Some fr3 ->
  keep_frame ev fr3 = true -> has_file fr3 = true ->
  exists ev1,
    Line stack (Some ev) = Ok (Some ev1)
    /\ Caller stack (Some ev) =
       match nth_error stack 4 with
       | Some fr4 =>
           if keep_frame ev fr4 then
             if has_file fr4
             then Ok (Some (set_txt ev1
                    (txt ev1
                     ++ field_bytes ev (bs "@file_1") (abbreviated (file fr4))
                     ++ field_bytes ev (bs "@line_1") (strconv_Itoa (line fr4)))))
             else Panic
           else Ok (Some ev1)
       | None => Ok (Some ev1)
       end.
Proof.
  intros Hnth Hkeep Hfile.
  exists (set_txt ev (txt ev ++ frame_pair ev 48 fr3)). split.
  - unfold Line. rewrite walk_one, Hnth, Hkeep, Hfile. reflexivity.
  - unfold Caller. rewrite (walk_two stack ev fr3 Hnth Hkeep Hfile).
    destruct (nth_error stack 4) as [fr4|]; [|reflexivity].
    destruct (keep_frame ev fr4); [|reflexivity].
    destruct (has_file fr4); [|reflexivity].
    rewrite set_txt_app. reflexivity.
Qed.

(** X13: the older [Line] and [Caller] report one frame each, the fourth
    and the fifth of the stack, line first and file second, under the
    keys [@line], [@file] and [@c_line], [@c_file]; no frame is filtered
    out, and a lookup that fails or yields no file name is a panic. *)
Theorem Old_caller_methods (stack : list Frame) (ev : Event) :
  Old.Line stack (Some ev) =
  match nth_error stack 3 with
  | Some fr =>
      if has_file fr
      then Ok (Some (set_txt ev
             (txt ev ++ field_bytes ev (bs "@line") (strconv_Itoa (line fr))
                     ++ field_bytes ev (bs "@file") (abbreviated (file fr)))))
      else Panic
  | None => Panic
  end
  /\
  Old.Caller stack (Some ev) =
  match nth_error stack 4 with
  | Some fr =>
      if has_file fr
      then Ok (Some (set_txt ev
             (txt ev ++ field_bytes ev (bs "@c_line") (strconv_Itoa (line fr))
                     ++ field_bytes ev (bs "@c_file") (abbreviated (file fr)))))
      else Panic
  | None => Panic
  end.
Proof.
  split; unfold Old.Line, Old.Caller, Old.writeCaller, runtime_Caller;
    cbn [Z.ltb Z.compare Z.eqb Pos.eqb];
    [change (Z.to_nat 3) with 3%nat | change (Z.to_nat 4) with 4%nat];
    (destruct (nth_error stack _) as [fr|]; [|reflexivity]);
    unfold has_file; (destruct (file fr) as [|c p] eqn:Hf; [reflexivity|]);
    rewrite abbreviate_total by discriminate; cbn [bind];
    rewrite Int_some, Str_some, field_bytes_set_txt, set_txt_app, <- Hf;
    reflexivity.
Qed.

(** ** The stock loggers and the [log] package *)

Lemma NewLogger_writers (t : bool) (PORT : bytes) :
  DebugWriter (NewLogger t PORT) = None
  /\ InfoWriter (NewLogger t PORT) = Some os_Stdout
  /\ ErrorWriter (NewLogger t PORT) = Some os_Stderr.
Proof.
  unfold NewLogger. destruct t; [repeat split|].
  destruct (negb (len PORT =? 0)); repeat split.
Qed.

(** X14: whatever [NewLogger] finds out about the terminal and [PORT],
    the logger it returns is silent on [Debug], sends the line of an
    [Info] statement to standard output and the line of a [Warn] or
    [Error] statement to standard error; it writes no timestamp exactly
    when standard output is no terminal and [PORT] is set. *)
Theorem NewLogger_routes
    (t : bool) (PORT : bytes) (cs : list Call) (fs : list Field) (M : bytes)
    (wd : World) :
  written_after (run cs (fst (Debug (NewLogger t PORT) wd))
                        (snd (Debug (NewLogger t PORT) wd)))
  = Some (written wd)
  /\ written_after (run (map CField fs ++ [CMsg M])
                        (fst (Info (NewLogger t PORT) wd))
                        (snd (Info (NewLogger t PORT) wd)))
     = Some (written wd ++
             [(os_Stdout,
               line_of (NewLogger t PORT) (InfoTag (NewLogger t PORT)) fs M wd)])
  /\ written_after (run (map CField fs ++ [CMsg M])
                        (fst (Warn (NewLogger t PORT) wd))
                        (snd (Warn (NewLogger t PORT) wd)))
     = Some (written wd ++
             [(os_Stderr,
               line_of (NewLogger t PORT) (WarnTag (NewLogger t PORT)) fs M wd)])
  /\ written_after (run (map CField fs ++ [CMsg M])
                        (fst (Error (NewLogger t PORT) wd))
                        (snd (Error (NewLogger t PORT) wd)))
     = Some (written wd ++
             [(os_Stderr,
               line_of (NewLogger t PORT) (ErrorTag (NewLogger t PORT)) fs M wd)])
  /\ (Timestamp (NewLogger t PORT) = [] <-> t = false /\ PORT <> []).
Proof.
  destruct (NewLogger_writers t PORT) as (Hd & Hi & He).
  unfold Debug, Info, Warn, Error. rewrite Hd, Hi, He.
  split; [| split; [| split; [| split]]]; try apply statement_written.
  - cbn [newEvent fst snd]. rewrite run_nil. reflexivity.
  - unfold NewLogger. destruct t.
    + split; [discriminate | intros [H _]; discriminate].
    + destruct (len PORT =? 0) eqn:E; cbn [negb].
      * apply Z.eqb_eq, len_nil_iff in E. subst PORT.
        split; [discriminate | intros [_ H]; contradiction].
      * split; [intros _ | reflexivity]. split; [reflexivity|].
        intros ->. discriminate.
Qed.

(** X15: [SetDebug] changes nothing but [Debug]: the events of the other
    severities are made as before; after [SetDebug(true)] a [Debug]
    statement writes its line to standard error, and after
    [SetDebug(false)] a [Debug] chain writes nothing, whatever the debug
    writer was before. *)
Theorem SetDebug_switches_debug_only
    (g : Logger) (b : bool) (cs : list Call) (fs : list Field) (M : bytes)
    (wd : World) :
  Info (log_SetDebug b g) wd = Info g wd
  /\ Warn (log_SetDebug b g) wd = Warn g wd
  /\ Error (log_SetDebug b g) wd = Error g wd
  /\ written_after (run (map CField fs ++ [CMsg M])
                        (fst (Debug (log_SetDebug true g) wd))
                        (snd (Debug (log_SetDebug true g) wd)))
     = Some (written wd ++ [(os_Stderr, line_of g (DebugTag g) fs M wd)])
  /\ written_after (run cs (fst (Debug (log_SetDebug false g) wd))
                           (snd (Debug (log_SetDebug false g) wd)))
     = Some (written wd).
Proof.
  split; [destruct b; reflexivity|].
  split; [destruct b; reflexivity|].
  split; [destruct b; reflexivity|].
  split.
  - exact (statement_written (log_SetDebug true g) os_Stderr (DebugTag g) fs M wd).
  - cbn [log_SetDebug set_DebugWriter Debug DebugWriter newEvent fst snd].
    unfold Debug. cbn [DebugWriter newEvent fst snd].
    rewrite run_nil. reflexivity.
Qed.

(** X16: the [log] package's [Error], [Logger.Error().Line().Caller()]:
    when the frames the two walks look at are there, kept and named, the
    event it returns holds, after the timestamp and the error tag, the
    frame of [Line] as [@file_0], [@line_0] and then the two frames of
    [Caller] as [@file_0], [@line_0], [@file_1], [@line_1]; the keys
    numbered 0 are there twice.  Nothing is written yet. *)
Theorem log_Error_fields
    (g : Logger) (o : Writer) (sLine sCaller : list Frame)
    (fr fr0 fr1 : Frame) (wd : World) :
  ErrorWriter g = Some o ->
  nth_error sLine 3 = Some fr ->
  nth_error sCaller 3 = Some fr0 ->
  nth_error sCaller 4 = Some fr1 ->
  forallb (fun f => IncludeSystemFiles g
                    || negb (strings_HasPrefix (file f) GOROOT)) [fr; fr0; fr1]
  = true ->
  forallb has_file [fr; fr0; fr1] = true ->
  exists ev wd',
    log_Error g sLine sCaller wd = Ok (Some ev, wd')
    /\ written wd' = written wd
    /\ msgpos ev = len (timestamp_of g wd ++ ErrorTag g)
    /\ txt ev = timestamp_of g wd ++ ErrorTag g
                ++ frame_pair (key_markers g) 48 fr
                ++ frame_pair (key_markers g) 48 fr0
                ++ frame_pair (key_markers g) 49 fr1.
Proof.
  intros Hw HL H0 H1 Hkeep Hfile.
  cbn [forallb] in Hkeep, Hfile.
  apply andb_true_iff in Hkeep as [Hk Hkeep].
  apply andb_true_iff in Hkeep as [Hk0 Hkeep].
  apply andb_true_iff in Hkeep as [Hk1 _].
  apply andb_true_iff in Hfile as [Hf Hfile].
  apply andb_true_iff in Hfile as [Hf0 Hfile].
  apply andb_true_iff in Hfile as [Hf1 _].
  destruct (newEvent_some g o (ErrorTag g) wd)
    as (ev & Hev & Htxt & Hpos & _ & Hks & Hke & _ & Hsys & Hwr).
  unfold log_Error, Error. rewrite Hw.
  destruct (newEvent g (Some o) (ErrorTag g) wd) as [e0 wd0] eqn:Enew.
  cbn [fst snd] in Hev, Hwr. subst e0.
  assert (Kfr : keep_frame ev fr = true) by (unfold keep_frame; rewrite Hsys; exact Hk).
  assert (K0 : keep_frame ev fr0 = true) by (unfold keep_frame; rewrite Hsys; exact Hk0).
  assert (K1 : keep_frame ev fr1 = true) by (unfold keep_frame; rewrite Hsys; exact Hk1).
  unfold Line. rewrite walk_one, HL, Kfr, Hf. cbn [bind].
  unfold Caller.
  rewrite (walk_two sCaller _ fr0); [| exact H0 | exact K0 | exact Hf0].
  rewrite H1.
  change (keep_frame (set_txt ev _) fr1) with (keep_frame ev fr1).
  rewrite K1, Hf1. cbn [bind].
  eexists _, _. split; [reflexivity|].
  split; [exact Hwr|]. ev_simpl.
  split; [rewrite Hpos, Htxt; reflexivity|].
  rewrite Htxt. unfold frame_pair, field_bytes, key_markers.
  cbn [keyStart keyEnd]. rewrite Hks, Hke.
  repeat rewrite <- app_assoc. reflexivity.
Qed.

(** ** The end of the line, and what is not escaped *)

Lemma end_line_space (a : bytes) :
  end_line (a ++ [" "%byte]) = a ++ ["010"%byte].
Proof. unfold end_line. rewrite removelast_last. reflexivity. Qed.

Lemma logger_fields_last (l : Logger) (fs : list Field) (f : Field) :
  logger_fields l (fs ++ [f]) =
  (logger_fields l fs ++ KeyStart l ++ field_key f ++ KeyEnd l
   ++ "="%byte :: field_value f) ++ [" "%byte].
Proof.
  unfold logger_fields, fields_bytes. rewrite flat_map_app.
  cbn [flat_map]. unfold field_bytes. cbn [keyStart keyEnd].
  rewrite app_nil_r. repeat rewrite <- app_assoc. cbn [app].
  repeat rewrite <- app_assoc. reflexivity.
Qed.

(** X17: a statement without fields writes the timestamp, the tag, the
    message and a newline, with no space before the newline; a statement
    with fields ends in the value of its last field and a newline, the
    space after that value being the byte the newline replaces. *)
Theorem line_endings
    (l : Logger) (o : Writer) (tg : bytes) (fs : list Field) (f : Field)
    (M : bytes) (wd : World) :
  written_after (statement l (Some o) tg [] M wd)
  = Some (written wd ++ [(o, timestamp_of l wd ++ tg ++ M ++ ["010"%byte])])
  /\
  written_after (statement l (Some o) tg (fs ++ [f]) M wd)
  = Some (written wd ++
          [(o, timestamp_of l wd ++ tg ++ M ++ bs " " ++ logger_fields l fs
               ++ KeyStart l ++ field_key f ++ KeyEnd l
               ++ "="%byte :: field_value f ++ ["010"%byte])]).
Proof.
  split; rewrite statement_written; unfold line_of.
  - change (logger_fields l []) with (@nil byte). rewrite app_nil_r.
    change (bs " ") with [" "%byte].
    replace (timestamp_of l wd ++ tg ++ M ++ [" "%byte])
      with ((timestamp_of l wd ++ tg ++ M) ++ [" "%byte])
      by (repeat rewrite <- app_assoc; reflexivity).
    rewrite end_line_space. repeat rewrite <- app_assoc. reflexivity.
  - rewrite logger_fields_last.
    replace (timestamp_of l wd ++ tg ++ M ++ bs " " ++
             (logger_fields l fs ++ KeyStart l ++ field_key f ++ KeyEnd l
              ++ "="%byte :: field_value f) ++ [" "%byte])
      with ((timestamp_of l wd ++ tg ++ M ++ bs " " ++ logger_fields l fs
             ++ KeyStart l ++ field_key f ++ KeyEnd l
             ++ "="%byte :: field_value f) ++ [" "%byte])
      by (repeat rewrite <- app_assoc; cbn [app];
          repeat rewrite <- app_assoc; reflexivity).
    rewrite end_line_space. repeat rewrite <- app_assoc. cbn [app].
    repeat rewrite <- app_assoc. reflexivity.
Qed.

(** X18: nothing in a value is escaped, so with empty key markers one
    [Str] whose value holds a space, a key and ['='] leaves the very
    bytes two [Str] calls leave. *)
Theorem Str_value_reads_as_two_fields (ev : Event) (k v1 k2 v2 : bytes) :
  keyStart ev = [] -> keyEnd ev = [] ->
  Str (Some ev) k (v1 ++ bs " " ++ k2 ++ bs "=" ++ v2)
  = Str (Str (Some ev) k v1) k2 v2.
Proof.
  intros Hs He. rewrite !Str_some, field_bytes_set_txt, set_txt_app.
  unfold field_bytes. rewrite Hs, He. cbn [app]. f_equal. f_equal. f_equal.
  change (bs " ") with [" "%byte]. change (bs "=") with ["="%byte].
  repeat rewrite <- app_assoc. cbn [app]. repeat rewrite <- app_assoc.
  reflexivity.
Qed.

(** ** The call stack with system files included *)



(** ** The numbers of the frames *)

Lemma frame_fields_app (ev : Event) (a b : list Frame) :
  forall lvl,
    frame_fields ev lvl (a ++ b)
    = frame_fields ev lvl a
      ++ frame_fields ev (Nat.iter (List.length a) rune_succ lvl) b.
Proof.
  induction a as [|fr a IH]; intros lvl; cbn [app frame_fields List.length].
  - reflexivity.
  - rewrite IH, Nat.iter_succ_r. repeat rewrite <- app_assoc. reflexivity.
Qed.

(** Up to ten frames the rune the loop holds is the decimal digit. *)
Lemma frame_fields_decimal (ev : Event) (frs : list Frame) :
  forall n : nat,
    (n + List.length frs <= 10)%nat ->
    frame_fields ev (Nat.iter n rune_succ 48) frs = numbered_fields ev n frs.
Proof.
  induction frs as [|fr frs IH]; intros n Hn;
    cbn [frame_fields numbered_fields]; [reflexivity|].
  cbn [List.length] in Hn.
  rewrite level_digit by lia.
  change (rune_succ (Nat.iter n rune_succ 48)) with (Nat.iter (S n) rune_succ 48).
  rewrite IH by lia. reflexivity.
Qed.

(** C7: with a depth of at least one and every kept frame named, the walk
    appends the fallback field [@file_0=unavailable] and nothing else
    when no visited frame is kept; with one to ten kept frames it appends
    their [@file_N] and [@line_N], [N] being 0, 1, 2, ... in decimal, for
    the kept frames only; but the eleventh kept frame is written under
    [@file_:] and [@line_:], the rune after ['9'], where the claim and
    the comment on [CallStack] have the index 10. *)
Theorem call_stack_numbering_breaks_at_ten
    (stack : list Frame) (ev : Event) (maxlevels : Z) :
  1 <= maxlevels ->
  forallb has_file (emitted_frames ev stack maxlevels) = true ->
  (emitted_frames ev stack maxlevels = [] ->
   writeCallStack stack (Some ev) maxlevels =
   Ok (Some (set_txt ev
     (txt ev ++ keyStart ev ++ bs "@file_0" ++ keyEnd ev
             ++ bs "=unavailable "))))
  /\
  (emitted_frames ev stack maxlevels <> [] ->
   (List.length (emitted_frames ev stack maxlevels) <= 10)%nat ->
   writeCallStack stack (Some ev) maxlevels =
   Ok (Some (set_txt ev
     (txt ev ++ numbered_fields ev 0 (emitted_frames ev stack maxlevels)))))
  /\
  (forall (first : list Frame) (fr : Frame) (rest : list Frame),
     emitted_frames ev stack maxlevels = first ++ fr :: rest ->
     List.length first = 10%nat ->
     writeCallStack stack (Some ev) maxlevels =
     Ok (Some (set_txt ev
       (txt ev ++ numbered_fields ev 0 first
        ++ field_bytes ev (bs "@file_:") (abbreviated (file fr))
        ++ field_bytes ev (bs "@line_:") (strconv_Itoa (line fr))
        ++ frame_fields ev 59 rest)))).
Proof.
  intros Hm Hfiles.
  rewrite writeCallStack_spec by lia. rewrite Hfiles.
  split; [| split].
  - intros Hnone. rewrite Hnone. reflexivity.
  - intros Hsome Hlen.
    destruct (emitted_frames ev stack maxlevels) as [|fr frs] eqn:E;
      [contradiction|].
    rewrite <- (frame_fields_decimal ev (fr :: frs) 0) by (cbn [Nat.add]; exact Hlen).
    reflexivity.
  - intros first fr rest E Hlen. rewrite E.
    destruct first as [|f0 first']; [discriminate|].
    cbn [app]. change (f0 :: first' ++ fr :: rest) with ((f0 :: first') ++ fr :: rest).
    rewrite frame_fields_app, Hlen.
    rewrite <- (frame_fields_decimal ev (f0 :: first') 0)
      by (cbn [Nat.add]; rewrite Hlen; lia).
    cbn [frame_fields Nat.iter]. repeat rewrite <- app_assoc. reflexivity.
Qed.

End Blammo.

(** * Worked examples *)

(** [Info().Int("x", 6).Int("y", 42).Msg("Debug trace")], from the example
    program. *)
Lemma Msg_example :
  exists ev' wd',
    run sample_ftoa unit sample_Sprintf unit sample_MarshalText sample_GOROOT
        (map (CField unit unit)
             [FInt unit (bs "x") 6; FInt unit (bs "y") 42]
         ++ [CMsg unit unit (bs "Debug trace")])
        (Some sample_event) (mkWorld unit [] [] tt)
    = Ok (ev', wd')
    /\ written unit wd'
       = [(os_Stdout, bs "[INFO ] Debug trace x=6 y=42" ++ ["010"%byte])].
Proof.
  eexists _, _. split.
  - apply (Msg_puts_message_before_fields sample_ftoa unit sample_Sprintf unit
             sample_MarshalText sample_GOROOT sample_event
             [FInt unit (bs "x") 6; FInt unit (bs "y") 42]
             (bs "Debug trace") os_Stdout (mkWorld unit [] [] tt));
      reflexivity.
  - vm_compute. reflexivity.
Defined.

(** The console logger has no debug writer: a debug chain writes nothing. *)
Lemma console_debug_is_silent :
  run sample_ftoa unit sample_Sprintf unit sample_MarshalText sample_GOROOT
      [CField unit unit (FInt unit (bs "x") 6); CLine unit unit sample_stack;
       CMsg unit unit (bs "Debug trace")]
      (fst (Debug unit sample_UTC sample_Format NewConsoleLogger
                  (mkWorld unit [] [] tt)))
      (snd (Debug unit sample_UTC sample_Format NewConsoleLogger
                  (mkWorld unit [] [] tt)))
  = Ok (None, mkWorld unit [] [] tt).
Proof.
  exact (proj2 (proj1 (disabled_severity_is_silent sample_ftoa unit
                         sample_Sprintf unit sample_UTC sample_Format
                         sample_MarshalText sample_GOROOT NewConsoleLogger
                         (mkWorld unit [] [] tt)
                         [CField unit unit (FInt unit (bs "x") 6);
                          CLine unit unit sample_stack;
                          CMsg unit unit (bs "Debug trace")])
                      eq_refl)).
Defined.

(** The path of the comment on [abbreviate]. *)
Lemma abbreviate_example :
  abbreviate (bs "/home/user/go/src/github.com/username/project/model/foo.go")
  = Ok (bs "model/foo.go").
Proof.
  refine (proj1 (abbreviate_last_two_segments
                   (bs "/home/user/go/src/github.com/username/project/model/foo.go")
                   _) eq_refl _).
  - discriminate.
  - apply Nat.leb_le. reflexivity.
Defined.

(** C6 as the specification has it fails twice: a path whose only ['/']
    comes first has two segments and loses the ['/'], and the empty path
    has one segment and makes [abbreviate] panic. *)
Lemma abbreviate_claim_fails :
  (2 <= List.length (segments (bs "/foo.go")))%nat
  /\ join_slash (last_two (segments (bs "/foo.go"))) = bs "/foo.go"
  /\ abbreviate (bs "/foo.go") = Ok (bs "foo.go")
  /\ abbreviate (bs "/foo.go")
     <> Ok (join_slash (last_two (segments (bs "/foo.go"))))
  /\ List.length (segments []) = 1%nat
  /\ abbreviate [] = Panic
  /\ abbreviate [] <> Ok [].
Proof.
  repeat split; try (vm_compute; lia); vm_compute; discriminate.
Qed.

(** [Line] called from [main]: the one frame it visits is the run-time's,
    which is filtered out, and the fallback field is all it writes. *)
Lemma call_stack_fallback_example :
  writeCallStack sample_GOROOT sample_stack (Some sample_event) 1
  = Ok (Some (set_txt sample_event
                (bs "[INFO ] " ++ bs "@file_0=unavailable "))).
Proof.
  exact (proj1 (call_stack_fallback_and_numbering sample_GOROOT sample_stack
                  sample_event 1 (Z.le_refl 1)) eq_refl).
Defined.

(** A walk of three frames that skips a run-time frame: the two frames it
    keeps are numbered 0 and 1. *)
Example call_stack_numbering_example :
  writeCallStack sample_GOROOT sample_deep_stack (Some sample_event) 3
  = Ok (Some (set_txt sample_event
         (bs "[INFO ] @file_0=model/foo.go @line_0=42 @file_1=project/main.go @line_1=7 "))).
Proof. vm_compute. reflexivity. Qed.

(** [Info().Int("x", 6).Line().CallStack()] on the pipe logger. *)
Lemma msgpos_example :
  exists r ev ev' added,
    fst (newEvent unit sample_UTC sample_Format NewPipeLogger (Some os_Stdout)
           (InfoTag NewPipeLogger) (mkWorld unit [] [] tt)) = Some ev
    /\ txt ev = timestamp_of unit sample_UTC sample_Format NewPipeLogger
                  (mkWorld unit [] [] tt) ++ InfoTag NewPipeLogger
    /\ msgpos ev = len (timestamp_of unit sample_UTC sample_Format NewPipeLogger
                          (mkWorld unit [] [] tt) ++ InfoTag NewPipeLogger)
    /\ r = Some ev'
    /\ msgpos ev' = msgpos ev
    /\ txt ev' = txt ev ++ added
    /\ take (msgpos ev') (txt ev')
       = timestamp_of unit sample_UTC sample_Format NewPipeLogger
           (mkWorld unit [] [] tt) ++ InfoTag NewPipeLogger.
Proof.
  pose (cs := [CField unit unit (FInt unit (bs "x") 6);
               CLine unit unit sample_stack;
               CCallStack unit unit sample_deep_stack]).
  pose (made := newEvent unit sample_UTC sample_Format NewPipeLogger
                  (Some os_Stdout) (InfoTag NewPipeLogger)
                  (mkWorld unit [] [] tt)).
  let res := eval vm_compute in
      (run sample_ftoa unit sample_Sprintf unit sample_MarshalText
           sample_GOROOT cs (fst made) (snd made)) in
  match res with
  | Ok (?r, ?w) =>
      exists r;
      apply (msgpos_is_stable sample_ftoa unit sample_Sprintf unit sample_UTC
               sample_Format sample_MarshalText sample_GOROOT NewPipeLogger
               os_Stdout (InfoTag NewPipeLogger) (mkWorld unit [] [] tt)
               cs r w);
      vm_compute; reflexivity
  end.
Defined.

(** The older [Line] with nothing above the logger's own frames. *)
Lemma abbreviate_partial_example :
  abbreviate [] = Panic
  /\ (forall (c : byte) (p : bytes),
        exists pre r, abbreviate (c :: p) = Ok r /\ c :: p = pre ++ r)
  /\ Old.writeCaller (firstn 3 sample_stack) (Some sample_event) 3 = Panic.
Proof.
  apply (abbreviate_is_partial (firstn 3 sample_stack) (Some sample_event) 3).
  reflexivity.
Defined.

(** * Worked examples for the further properties *)

(** The second row of [spliceTests]. *)
Lemma splice_insert_example :
  splice (bs "abcdefg") (bs "1234567890") 6 = Ok (bs "abcdef1234567890g").
Proof.
  apply (splice_spec (bs "abcdefg") (bs "1234567890") 6).
  - vm_compute. split; discriminate.
  - left. discriminate.
Defined.

Lemma splice_offset_example :
  splice (bs "abc") (bs "x") 4 = Panic /\ splice (bs "abc") (bs "x") (-1) = Panic.
Proof.
  split; apply splice_offset_out_of_range.
  - right. reflexivity.
  - left. reflexivity.
Defined.

(** [Int("x", 6).Line().Caller().Msg("Debug trace")] on the sample event:
    [Line] sees only a frame of the library and falls back, [Caller] keeps
    one frame of the program. *)
Lemma one_write_example :
  run sample_ftoa unit sample_Sprintf unit sample_MarshalText sample_GOROOT
      [CField unit unit (FInt unit (bs "x") 6);
       CLine unit unit sample_stack;
       CCaller unit unit sample_deep_stack]
      (Some sample_event) (mkWorld unit [] [] tt)
  = Ok (Some (set_txt sample_event
          (bs "[INFO ] x=6 @file_0=unavailable @file_0=model/foo.go @line_0=42 ")),
        mkWorld unit [] [] tt)
  /\
  written_after unit
    (run sample_ftoa unit sample_Sprintf unit sample_MarshalText sample_GOROOT
         ([CField unit unit (FInt unit (bs "x") 6);
           CLine unit unit sample_stack;
           CCaller unit unit sample_deep_stack]
          ++ [CMsg unit unit (bs "Debug trace")])
         (Some sample_event) (mkWorld unit [] [] tt))
  = Some [(os_Stdout,
           bs "[INFO ] Debug trace x=6 @file_0=unavailable @file_0=model/foo.go @line_0=42"
           ++ ["010"%byte])].
Proof.
  exact (one_write_per_statement sample_ftoa unit sample_Sprintf unit
           sample_MarshalText sample_GOROOT
           [CField unit unit (FInt unit (bs "x") 6);
            CLine unit unit sample_stack;
            CCaller unit unit sample_deep_stack]
           sample_event (bs "Debug trace") os_Stdout (mkWorld unit [] [] tt)
           eq_refl eq_refl eq_refl eq_refl).
Defined.

Lemma CallStack_negative_example :
  CallStack sample_GOROOT sample_deep_stack (Some sample_event_neg)
  = Ok (Some (set_txt sample_event_neg (bs "[INFO ] @file_0=unavailable "))).
Proof.
  refine (CallStack_without_levels sample_GOROOT sample_deep_stack
            sample_event_neg _).
  vm_compute. discriminate.
Defined.

(** [Caller] where the frame above the one [Line] reports is the
    library's: both leave the same event. *)
Lemma Caller_example :
  exists ev1,
    Line sample_GOROOT sample_deep_stack (Some sample_event) = Ok (Some ev1)
    /\ Caller sample_GOROOT sample_deep_stack (Some sample_event) = Ok (Some ev1).
Proof.
  exact (Caller_extends_Line sample_GOROOT sample_deep_stack sample_event
           (mkFrame (bs "/home/user/project/model/foo.go") 42)
           eq_refl eq_refl eq_refl).
Defined.

(** [log.Error()] called by [example], on the pipe logger. *)
Lemma log_Error_example :
  exists ev wd',
    log_Error unit sample_UTC sample_Format sample_GOROOT NewPipeLogger
              sample_error_stack sample_error_stack (mkWorld unit [] [] tt)
    = Ok (Some ev, wd')
    /\ written unit wd' = []
    /\ msgpos ev = 28
    /\ txt ev = bs "2019-11-12 13:14:15 [ERROR] @file_0=example/example.go @line_0=10 @file_0=example/example.go @line_0=10 @file_1=example/example.go @line_1=19 ".
Proof.
  exact (log_Error_fields unit sample_UTC sample_Format sample_GOROOT
           NewPipeLogger os_Stderr sample_error_stack sample_error_stack
           (mkFrame (bs "/home/user/go/src/github.com/lpar/blammo/example/example.go") 10)
           (mkFrame (bs "/home/user/go/src/github.com/lpar/blammo/example/example.go") 10)
           (mkFrame (bs "/home/user/go/src/github.com/lpar/blammo/example/example.go") 19)
           (mkWorld unit [] [] tt)
           eq_refl eq_refl eq_refl eq_refl eq_refl eq_refl).
Defined.

Lemma Str_forged_field_example :
  Str (Some sample_event) (bs "user")
      (bs "bob" ++ bs " " ++ bs "admin" ++ bs "=" ++ bs "true")
  = Str (Str (Some sample_event) (bs "user") (bs "bob")) (bs "admin") (bs "true").
Proof.
  exact (Str_value_reads_as_two_fields sample_event (bs "user") (bs "bob")
           (bs "admin") (bs "true") eq_refl eq_refl).
Defined.


(** Three frames of the program are numbered 0, 1, 2; with eleven, the
    last is written under [@file_:] and [@line_:]. *)
Lemma call_stack_eleven_frames_example :
  writeCallStack sample_GOROOT sample_long_stack (Some sample_event) 3
  = Ok (Some (set_txt sample_event
         (bs "[INFO ] @file_0=app/f0.go @line_0=100 @file_1=app/f1.go @line_1=101 @file_2=app/f2.go @line_2=102 ")))
  /\
  writeCallStack sample_GOROOT sample_long_stack (Some sample_event) 11
  = Ok (Some (set_txt sample_event
         (bs "[INFO ] @file_0=app/f0.go @line_0=100 @file_1=app/f1.go @line_1=101 @file_2=app/f2.go @line_2=102 @file_3=app/f3.go @line_3=103 @file_4=app/f4.go @line_4=104 @file_5=app/f5.go @line_5=105 @file_6=app/f6.go @line_6=106 @file_7=app/f7.go @line_7=107 @file_8=app/f8.go @line_8=108 @file_9=app/f9.go @line_9=109 @file_:=app/f10.go @line_:=110 "))).
Proof.
  split.
  - refine (proj1 (proj2 (call_stack_numbering_breaks_at_ten sample_GOROOT
                            sample_long_stack sample_event 3 _ eq_refl)) _ _).
    + vm_compute. discriminate.
    + vm_compute. discriminate.
    + vm_compute. lia.
  - refine (proj2 (proj2 (call_stack_numbering_breaks_at_ten sample_GOROOT
                            sample_long_stack sample_event 11 _ eq_refl))
              (firstn 10 (skipn 3 sample_long_stack))
              (mkFrame (bs "/srv/app/f10.go") 110) [] eq_refl eq_refl).
    vm_compute. discriminate.
Defined.
